(** * dcrlibwallet: the custom transaction author

    A shallow embedding of [ParseOutputsAndChangeDestination] and
    [constructCustomTransaction] (txauthor part of multiwallet.go) together
    with the properties of the authoring engine: amount validation, the
    max-amount recipient rules, fee and change computation, dust
    suppression, explicit change allocation and the random placement of
    change outputs.

    Amounts are Go [int64] values: they are carried as [Z] and every
    addition and subtraction of the source is written with its two's
    complement wrap-around ([add64], [sub64]).  Script and transaction
    sizes are Go [int] byte counts of scripts held in memory; they are
    carried as [Z] and added without wrap-around.

    Further modules embed the address queries of address.go, the wallet
    counters and the reserved wallet names of multiwallet.go, and the
    mixer setup and stop functions of account_mixer.go. *)

From stdpp Require Import base numbers list strings gmap.
From Stdlib Require Import ZArith Lia Ascii.

Local Open Scope Z_scope.

(** ** Results of fallible calls *)

(** The error values the author can return.  The Go code builds them with
    [errors.E] and [fmt.Errorf]; one constructor stands for each message. *)
Inductive AuthoringError : Type :=
  | InvalidAmount                      (* "invalid amount" *)
  | MultipleMaxAmountRecipients        (* "cannot send max amount to multiple recipients" *)
  | MakeTxOutputError                  (* "make tx output error: ..." *)
  | ConflictingChangeSpecification     (* "no change is generated when sending max amount, ..." *)
  | ChangeAddressGenerationFailed      (* "error generating internal address to use as change: ..." *)
  | ChangeAddressError                 (* "change address error: ..." *)
  | InsufficientFunds (excessSpending : Z)
  | ScriptTooLarge                     (* "script size exceed maximum bytes pushable to the stack" *)
  | ChangeAllocationExceedsAvailable (totalChangeAmount changeAmount : Z).

Inductive Result (A : Type) : Type :=
  | Ok (a : A)
  | Err (e : AuthoringError).
Arguments Ok {A} a.
Arguments Err {A} e.

Definition bind {A B : Type} (r : Result A) (k : A -> Result B) : Result B :=
  match r with
  | Ok a => k a
  | Err e => Err e
  end.

Notation "'try' x <- r 'in' k" := (bind r (fun x => k))
  (at level 10, x name, r at level 100, k at level 200).
Notation "'try' ( x , y , z ) <- r 'in' k" := (bind r (fun '(x, y, z) => k))
  (at level 10, x name, y name, z name, r at level 100, k at level 200).
Notation "'try' ( x , y , z , w ) <- r 'in' k" := (bind r (fun '(x, y, z, w) => k))
  (at level 10, x name, y name, z name, w name, r at level 100, k at level 200).
Notation "'try' ( x , y ) <- r 'in' k" := (bind r (fun '(x, y) => k))
  (at level 10, x name, y name, r at level 100, k at level 200).

Definition is_ok {A : Type} (r : Result A) : bool :=
  match r with Ok _ => true | Err _ => false end.

(** ** int64 arithmetic *)

Definition int64_modulus : Z := 2 ^ 64.
Definition int64_min : Z := - 2 ^ 63.
Definition int64_max : Z := 2 ^ 63 - 1.

(** The value a Go [int64] holds after an operation whose exact result is [x]. *)
Definition wrap64 (x : Z) : Z :=
  (x + 2 ^ 63) mod int64_modulus - 2 ^ 63.

Definition add64 (a b : Z) : Z := wrap64 (a + b).
Definition sub64 (a b : Z) : Z := wrap64 (a - b).

Definition in_int64 (x : Z) : Prop := int64_min <= x <= int64_max.

(** Congruence modulo 2^64 is compatible with the ring operations, so
    nested wrap-arounds can be dropped under an outer one. *)
Definition eqm64 : Z -> Z -> Prop := Zdiv.eqm int64_modulus.

#[local] Instance eqm64_equiv : Equivalence eqm64 := Zdiv.eqm_setoid int64_modulus.
#[local] Instance eqm64_add : Proper (eqm64 ==> eqm64 ==> eqm64) Z.add :=
  Zdiv.Zplus_eqm int64_modulus.
#[local] Instance eqm64_sub : Proper (eqm64 ==> eqm64 ==> eqm64) Z.sub :=
  Zdiv.Zminus_eqm int64_modulus.
#[local] Instance eqm64_opp : Proper (eqm64 ==> eqm64) Z.opp :=
  Zdiv.Zopp_eqm int64_modulus.

(** ** Data model *)

Definition bytes := list Byte.byte.

(** [dcrlibwallet.TransactionDestination] *)
Record TransactionDestination : Type := {
  Address : string;
  AtomAmount : Z;
  SendMax : bool
}.

(** [wire.TxOut]: the fields the author reads or writes. *)
Record TxOut : Type := {
  Value : Z;
  PkScript : bytes
}.

(** [wire.TxIn]: the fields the author reads. *)
Record TxIn : Type := {
  ValueIn : Z;
  SignatureScript : bytes
}.

(** [wire.MsgTx] as built at the end of the closure; [SerType] and
    [Version] are the protocol constants [wire.TxSerializeFull] and
    [wire.TxVersion]. *)
Record MsgTx : Type := {
  TxIns : list TxIn;
  TxOuts : list TxOut;
  LockTime : Z;
  Expiry : Z
}.

(** [txauthor.AuthoredTx] *)
Record AuthoredTx : Type := {
  Tx : MsgTx;
  TotalInput : Z;
  EstimatedSignedSerializeSize : Z
}.

(** Exact sum of the values of a list of outputs. *)
Definition sumValues (outs : list TxOut) : Z :=
  foldr (fun o acc => Value o + acc) 0 outs.

(** Exact sum of the input values. *)
Definition sumValueIn (ins : list TxIn) : Z :=
  foldr (fun i acc => ValueIn i + acc) 0 ins.

(** Exact sum of the amounts of a list of destinations. *)
Definition sumAmounts (ds : list TransactionDestination) : Z :=
  foldr (fun d acc => AtomAmount d + acc) 0 ds.

(** ** Random source

    The position of a change output is drawn at random.  The draws are
    made explicit: a tape gives the raw value of the k-th draw of a call,
    and the state threaded through the change loop is the number of draws
    made so far. *)
Definition Tape := nat -> Z.

(** A draw bounded by [n]: a value in [0, n) for [n > 0]. *)
Definition Int31n (tape : Tape) (k : nat) (n : Z) : Z := tape k mod n.

(** Exchange of the outputs at positions [r] and [index] of the slice; the
    slice is left alone when a position is out of range. *)
Definition swapOutputs (outputs : list TxOut) (r index : nat) : list TxOut :=
  match outputs !! r, outputs !! index with
  | Some a, Some b => <[index := a]> (<[r := b]> outputs)
  | _, _ => outputs
  end.

(** Modelled from the spec: [txauthor.RandomizeOutputPosition] is not part
    of the source file.  The output at [index] takes a position picked at
    random among all current positions of the slice, in place: it is
    exchanged with the output at the drawn position. *)
Definition RandomizeOutputPosition (tape : Tape) (k : nat)
    (outputs : list TxOut) (index : nat) : list TxOut :=
  let r := Int31n tape k (Z.of_nat (length outputs)) in
  swapOutputs outputs (Z.to_nat r) index.

(** Two tapes used to exhibit different placements: on [zeroTape] every
    draw is 0, so each change output is swapped to the front; on
    [stayTape base] the k-th draw is [base + k], the index of the output
    just appended when the loop started with [base] outputs, so each
    change output stays where it was appended. *)
Definition zeroTape : Tape := fun _ => 0.
Definition stayTape (base : nat) : Tape := fun k => Z.of_nat (base + k).

Section Author.

(** *** Collaborators outside the source file

    Network parameters and the helpers of dcrd, dcrwallet and the
    [txhelper] package are taken as given. *)

(** [dcrutil.MaxAmount] *)
Variable MaxAmount : Z.
(** [txscript.MaxScriptElementSize] *)
Variable MaxScriptElementSize : Z.
(** [txrules.DefaultRelayFeePerKb] *)
Variable DefaultRelayFeePerKb : Z.
(** [txsizes.RedeemP2PKHSigScriptSize] *)
Variable RedeemP2PKHSigScriptSize : Z.

(** [addresshelper.PkScript(address, net)]: the locking script paying to
    an address, [None] when the address does not decode for the network. *)
Variable PkScriptOf : string -> option bytes.

(** [txsizes.EstimateSerializeSize(scriptSizes, txOuts, changeScriptSize)] *)
Variable EstimateSerializeSize : list Z -> list TxOut -> Z -> Z.
(** [txrules.FeeForSerializeSize(relayFeePerKb, txSerializeSize)] *)
Variable FeeForSerializeSize : Z -> Z -> Z.
(** [txrules.IsDustAmount(amount, scriptSize, relayFeePerKb)] *)
Variable IsDustAmount : Z -> Z -> Z -> bool.

(** The outcome of [wallet.NewChangeAddress] for the source account,
    [None] when the wallet reports an error. *)
Variable nextInternalAddress : option string.

(** Modelled from the spec: [txhelper.MakeTxOutput] is not part of the
    source file.  An output carries the requested amount and the locking
    script of the address; an address without a script is an error. *)
Definition MakeTxOutput (address : string) (amountInAtom : Z) : option TxOut :=
  match PkScriptOf address with
  | Some script => Some {| Value := amountInAtom; PkScript := script |}
  | None => None
  end.

(** Modelled from the spec: [txhelper.MakeTxChangeSource] followed by
    [ScriptSize] is not part of the source file.  The change script
    size is the byte length of the locking script of the address. *)
Definition changeSourceScriptSize (changeAddress : string) : option Z :=
  match PkScriptOf changeAddress with
  | Some script => Some (Z.of_nat (length script))
  | None => None
  end.

(** *** calculateChangeScriptSize *)
Definition calculateChangeScriptSize (changeAddress : string) : Result Z :=
  match changeSourceScriptSize changeAddress with
  | None => Err ChangeAddressError
  | Some size => Ok size
  end.

(** *** calculateMultipleChangeScriptSize

    The loop over the change destinations, with the running total. *)
Fixpoint multipleChangeScriptSizeLoop (changeDestinations : list TransactionDestination)
    (totalChangeScriptSize : Z) : Result Z :=
  match changeDestinations with
  | [] => Ok totalChangeScriptSize
  | changeDestination :: rest =>
      try changeScriptSize <- calculateChangeScriptSize (Address changeDestination) in
      multipleChangeScriptSizeLoop rest (totalChangeScriptSize + changeScriptSize)
  end.

Definition calculateMultipleChangeScriptSize
    (changeDestinations : list TransactionDestination) : Result Z :=
  multipleChangeScriptSizeLoop changeDestinations 0.

(** *** ParseOutputsAndChangeDestination

    The loop state is the triple of the three local variables; every
    early [return] of the source is an [Err]. *)
Definition ParseState : Type := (list TxOut * Z * string)%type.

Fixpoint parseLoop (txDestinations : list TransactionDestination)
    (outputs : list TxOut) (totalSendAmount : Z)
    (maxAmountRecipientAddress : string) : Result ParseState :=
  match txDestinations with
  | [] => Ok (outputs, totalSendAmount, maxAmountRecipientAddress)
  | destination :: rest =>
      if negb (SendMax destination)
         && ((AtomAmount destination <=? 0) || (MaxAmount <? AtomAmount destination))
      then Err InvalidAmount
      else if SendMax destination && bool_decide (maxAmountRecipientAddress ≠ "")
      then Err MultipleMaxAmountRecipients
      else if SendMax destination
      then parseLoop rest outputs totalSendAmount (Address destination)
      else
        match MakeTxOutput (Address destination) (AtomAmount destination) with
        | None => Err MakeTxOutputError
        | Some output =>
            parseLoop rest (outputs ++ [output])
                      (add64 totalSendAmount (Value output))
                      maxAmountRecipientAddress
        end
  end.

Definition ParseOutputsAndChangeDestination
    (txDestinations : list TransactionDestination) : Result ParseState :=
  parseLoop txDestinations [] 0 "".

(** *** constructCustomTransaction

    The closure of the source runs in sequence: parse, validate the change
    mode, sum the inputs, size the change script(s), compute fee and
    change, then either materialize the change outputs or re-estimate the
    size without a change slot. *)

(** Change mode (the two [if]s after parsing): a max-amount recipient
    excludes explicit change destinations; with neither, the wallet is
    asked for a fresh internal address, which then plays the role of the
    max-amount recipient. *)
Definition resolveChangeRecipient (maxAmountRecipientAddress : string)
    (changeDestinations : list TransactionDestination) : Result string :=
  if bool_decide (maxAmountRecipientAddress ≠ "")
     && bool_decide (0 < length changeDestinations)%nat
  then Err ConflictingChangeSpecification
  else if bool_decide (maxAmountRecipientAddress = "")
          && bool_decide (length changeDestinations = 0%nat)
  then match nextInternalAddress with
       | None => Err ChangeAddressGenerationFailed
       | Some address => Ok address
       end
  else Ok maxAmountRecipientAddress.

(** The loop over the inputs: [totalInputAmount += input.ValueIn]. *)
Definition totalInputAmountOf (inputs : list TxIn) : Z :=
  fold_left (fun total input => add64 total (ValueIn input)) inputs 0.

(** [inputScriptSizes[i] = txsizes.RedeemP2PKHSigScriptSize] *)
Definition inputScriptSizesOf (inputs : list TxIn) : list Z :=
  map (fun _ => RedeemP2PKHSigScriptSize) inputs.

(** The change script size of the active change representation. *)
Definition activeChangeScriptSize (maxAmountRecipientAddress : string)
    (changeDestinations : list TransactionDestination) : Result Z :=
  if bool_decide (maxAmountRecipientAddress ≠ "")
  then calculateChangeScriptSize maxAmountRecipientAddress
  else calculateMultipleChangeScriptSize changeDestinations.

(** [changeAmount := totalInputAmount - totalSendAmount - int64(maxRequiredFee)] *)
Definition changeAmountOf (totalInputAmount totalSendAmount maxRequiredFee : Z) : Z :=
  sub64 (sub64 totalInputAmount totalSendAmount) maxRequiredFee.

(** The loop over the change destinations: each change output is appended
    and then swapped with a randomly drawn position.  [k] counts the
    draws made so far. *)
Fixpoint changeLoop (tape : Tape) (k : nat)
    (changeDestinations : list TransactionDestination)
    (outputs : list TxOut) (totalChangeAmount : Z) : Result (list TxOut * Z) :=
  match changeDestinations with
  | [] => Ok (outputs, totalChangeAmount)
  | changeDestination :: rest =>
      match MakeTxOutput (Address changeDestination) (AtomAmount changeDestination) with
      | None => Err ChangeAddressError
      | Some changeOutput =>
          let totalChangeAmount := add64 totalChangeAmount (Value changeOutput) in
          let outputs := outputs ++ [changeOutput] in
          let changeOutputIndex := (length outputs - 1)%nat in
          let outputs := RandomizeOutputPosition tape k outputs changeOutputIndex in
          changeLoop tape (S k) rest outputs totalChangeAmount
      end
  end.

Definition authored (inputs : list TxIn) (outputs : list TxOut)
    (totalInputAmount maxSignedSize : Z) : AuthoredTx :=
  {| Tx := {| TxIns := inputs; TxOuts := outputs; LockTime := 0; Expiry := 0 |};
     TotalInput := totalInputAmount;
     EstimatedSignedSerializeSize := maxSignedSize |}.

Definition constructCustomTransaction (tape : Tape) (inputs : list TxIn)
    (sendDestinations changeDestinations : list TransactionDestination)
    : Result AuthoredTx :=
  try (outputs, totalSendAmount, maxAmountRecipientAddress) <-
    ParseOutputsAndChangeDestination sendDestinations in
  try maxAmountRecipientAddress <-
    resolveChangeRecipient maxAmountRecipientAddress changeDestinations in
  let totalInputAmount := totalInputAmountOf inputs in
  let inputScriptSizes := inputScriptSizesOf inputs in
  try changeScriptSize <-
    activeChangeScriptSize maxAmountRecipientAddress changeDestinations in
  let maxSignedSize := EstimateSerializeSize inputScriptSizes outputs changeScriptSize in
  let maxRequiredFee := FeeForSerializeSize DefaultRelayFeePerKb maxSignedSize in
  let changeAmount := changeAmountOf totalInputAmount totalSendAmount maxRequiredFee in
  if changeAmount <? 0
  then Err (InsufficientFunds (sub64 0 changeAmount))
  else if negb (changeAmount =? 0)
          && negb (IsDustAmount changeAmount changeScriptSize DefaultRelayFeePerKb)
  then
    if MaxScriptElementSize <? changeScriptSize
    then Err ScriptTooLarge
    else
      let changeDestinations :=
        if bool_decide (maxAmountRecipientAddress ≠ "")
        then [ {| Address := maxAmountRecipientAddress;
                  AtomAmount := changeAmount;
                  SendMax := false |} ]
        else changeDestinations in
      try (outputs, totalChangeAmount) <-
        changeLoop tape 0 changeDestinations outputs 0 in
      if changeAmount <? totalChangeAmount
      then Err (ChangeAllocationExceedsAvailable totalChangeAmount changeAmount)
      else Ok (authored inputs outputs totalInputAmount maxSignedSize)
  else
    let maxSignedSize := EstimateSerializeSize inputScriptSizes outputs 0 in
    Ok (authored inputs outputs totalInputAmount maxSignedSize).

(** *** Views of the closure

    The properties below speak about values the closure computes on the
    way.  These definitions name them; [construct_prepare] shows that
    they are the ones [constructCustomTransaction] uses. *)

(** The fallible steps before the fee is computed: the parsed outputs, the
    total send amount, the change recipient after validation of the change
    mode (empty in explicit-change mode) and the change script size. *)
Definition prepare (sendDestinations changeDestinations : list TransactionDestination)
    : Result (list TxOut * Z * string * Z) :=
  try (outputs, totalSendAmount, maxAmountRecipientAddress) <-
    ParseOutputsAndChangeDestination sendDestinations in
  try maxAmountRecipientAddress <-
    resolveChangeRecipient maxAmountRecipientAddress changeDestinations in
  try changeScriptSize <-
    activeChangeScriptSize maxAmountRecipientAddress changeDestinations in
  Ok (outputs, totalSendAmount, maxAmountRecipientAddress, changeScriptSize).

(** [maxSignedSize], the size estimate that assumes change is present. *)
Definition sizeWithChange (inputs : list TxIn) (outputs : list TxOut)
    (changeScriptSize : Z) : Z :=
  EstimateSerializeSize (inputScriptSizesOf inputs) outputs changeScriptSize.

(** [maxRequiredFee] *)
Definition feeWithChange (inputs : list TxIn) (outputs : list TxOut)
    (changeScriptSize : Z) : Z :=
  FeeForSerializeSize DefaultRelayFeePerKb (sizeWithChange inputs outputs changeScriptSize).

(** [changeAmount] *)
Definition computedChange (inputs : list TxIn) (outputs : list TxOut)
    (totalSendAmount changeScriptSize : Z) : Z :=
  changeAmountOf (totalInputAmountOf inputs) totalSendAmount
    (feeWithChange inputs outputs changeScriptSize).

(** The change destinations the change loop runs over. *)
Definition effectiveChangeDestinations (maxAmountRecipientAddress : string)
    (changeAmount : Z) (changeDestinations : list TransactionDestination)
    : list TransactionDestination :=
  if bool_decide (maxAmountRecipientAddress ≠ "")
  then [ {| Address := maxAmountRecipientAddress;
            AtomAmount := changeAmount;
            SendMax := false |} ]
  else changeDestinations.

(** The change output made for a change destination. *)
Definition changeOutputOf (d : TransactionDestination) (c : TxOut) : Prop :=
  MakeTxOutput (Address d) (AtomAmount d) = Some c.

(** The closure from the size estimate on. *)
Definition finish (tape : Tape) (inputs : list TxIn)
    (changeDestinations : list TransactionDestination)
    (outputs : list TxOut) (totalSendAmount : Z)
    (maxAmountRecipientAddress : string) (changeScriptSize : Z) : Result AuthoredTx :=
  let changeAmount := computedChange inputs outputs totalSendAmount changeScriptSize in
  if changeAmount <? 0
  then Err (InsufficientFunds (sub64 0 changeAmount))
  else if negb (changeAmount =? 0)
          && negb (IsDustAmount changeAmount changeScriptSize DefaultRelayFeePerKb)
  then
    if MaxScriptElementSize <? changeScriptSize
    then Err ScriptTooLarge
    else
      try (outputs', totalChangeAmount) <-
        changeLoop tape 0
          (effectiveChangeDestinations maxAmountRecipientAddress changeAmount
             changeDestinations) outputs 0 in
      if changeAmount <? totalChangeAmount
      then Err (ChangeAllocationExceedsAvailable totalChangeAmount changeAmount)
      else Ok (authored inputs outputs' (totalInputAmountOf inputs)
                 (sizeWithChange inputs outputs changeScriptSize))
  else
    Ok (authored inputs outputs (totalInputAmountOf inputs)
          (EstimateSerializeSize (inputScriptSizesOf inputs) outputs 0)).

End Author.

(** ** A concrete network

    The constants and helper algorithms of dcrd and dcrwallet v3 (packages
    dcrutil, txscript, wire, txsizes, txrules), used to run the author on
    concrete requests.  The address decoder is a stand-in: it accepts every
    non-empty address and wraps its text in the pay-to-pubkey-hash
    template, so a 20-character address has the 25-byte script of a real
    P2PKH address. *)
Module Reference.

Definition MaxAmount : Z := 21000000 * 100000000.
Definition MaxScriptElementSize : Z := 2048.
Definition DefaultRelayFeePerKb : Z := 10000.
Definition RedeemP2PKHSigScriptSize : Z := 1 + 73 + 1 + 33.

Definition PkScriptOf (address : string) : option bytes :=
  if bool_decide (address = "") then None
  else Some ([Byte.x76; Byte.xa9; Byte.x14]
               ++ String.list_byte_of_string address
               ++ [Byte.x88; Byte.xac]).

(** [wire.VarIntSerializeSize] *)
Definition VarIntSerializeSize (val : Z) : Z :=
  if val <? 253 then 1
  else if val <=? 65535 then 3
  else if val <=? 4294967295 then 5
  else 9.

(** [txsizes.EstimateInputSize] *)
Definition EstimateInputSize (scriptSize : Z) : Z :=
  32 + 4 + 1 + 8 + 4 + 4 + VarIntSerializeSize scriptSize + scriptSize + 4.

(** [txsizes.EstimateOutputSize] *)
Definition EstimateOutputSize (scriptSize : Z) : Z :=
  8 + 2 + VarIntSerializeSize scriptSize + scriptSize.

(** [wire.TxOut.SerializeSize] *)
Definition TxOutSerializeSize (o : TxOut) : Z :=
  let n := Z.of_nat (length (PkScript o)) in
  8 + 2 + VarIntSerializeSize n + n.

(** [txsizes.EstimateSerializeSize] *)
Definition EstimateSerializeSize (scriptSizes : list Z) (txOuts : list TxOut)
    (changeScriptSize : Z) : Z :=
  let txInsSize := foldr (fun size acc => EstimateInputSize size + acc) 0 scriptSizes in
  let inputCount := Z.of_nat (length scriptSizes) in
  let outputCount := Z.of_nat (length txOuts) in
  let changeSize := if 0 <? changeScriptSize then EstimateOutputSize changeScriptSize else 0 in
  let outputCount := if 0 <? changeScriptSize then outputCount + 1 else outputCount in
  12 + 2 * VarIntSerializeSize inputCount + VarIntSerializeSize outputCount
     + txInsSize
     + foldr (fun o acc => TxOutSerializeSize o + acc) 0 txOuts
     + changeSize.

(** [txrules.FeeForSerializeSize] *)
Definition FeeForSerializeSize (relayFeePerKb txSerializeSize : Z) : Z :=
  let fee := Z.quot (wrap64 (relayFeePerKb * txSerializeSize)) 1000 in
  let fee := if (fee =? 0) && (0 <? relayFeePerKb) then relayFeePerKb else fee in
  if (fee <? 0) || (MaxAmount <? fee) then MaxAmount else fee.

(** [txrules.IsDustAmount] *)
Definition IsDustAmount (amount scriptSize relayFeePerKb : Z) : bool :=
  let totalSize := 8 + 2 + VarIntSerializeSize scriptSize + scriptSize + 165 in
  Z.quot (wrap64 (amount * 1000)) (3 * totalSize) <? relayFeePerKb.

(** The author on the reference network; [provider] is the outcome of the
    wallet's change address call. *)
Definition parse : list TransactionDestination -> Result (list TxOut * Z * string) :=
  ParseOutputsAndChangeDestination MaxAmount PkScriptOf.

Definition author (provider : option string) :
    Tape -> list TxIn -> list TransactionDestination ->
    list TransactionDestination -> Result AuthoredTx :=
  constructCustomTransaction MaxAmount MaxScriptElementSize DefaultRelayFeePerKb
    RedeemP2PKHSigScriptSize PkScriptOf EstimateSerializeSize FeeForSerializeSize
    IsDustAmount provider.

(** Sample requests. *)
Definition addrA : string := "DsAliceAliceAliceAli".
Definition addrB : string := "DsBobBobBobBobBobBob".
Definition addrC : string := "DsChangeChangeChange".
Definition addrD : string := "DsDaveDaveDaveDaveDa".

Definition pay (address : string) (amount : Z) : TransactionDestination :=
  {| Address := address; AtomAmount := amount; SendMax := false |}.
Definition payMax (address : string) : TransactionDestination :=
  {| Address := address; AtomAmount := 0; SendMax := true |}.
Definition coin (value : Z) : TxIn :=
  {| ValueIn := value; SignatureScript := [] |}.

(** The output [MakeTxOutput] builds for a non-empty address. *)
Definition outTo (address : string) (amount : Z) : TxOut :=
  {| Value := amount;
     PkScript := [Byte.x76; Byte.xa9; Byte.x14]
                   ++ String.list_byte_of_string address
                   ++ [Byte.x88; Byte.xac] |}.

(** An address whose stand-in script is longer than the maximum script
    element size. *)
Definition longAddress : string :=
  String.string_of_list_ascii (repeat "a"%char 2050).

(** Eighty-two change destinations with 25-byte scripts: 2050 bytes of
    change script in total. *)
Definition manyChangeDestinations : list TransactionDestination :=
  repeat (pay addrC 5) 82.

End Reference.

(** ** Further notions used to state properties *)

(** Total byte length of a list of scripts. *)
Definition totalScriptSize (scripts : list bytes) : Z :=
  foldr (fun script acc => Z.of_nat (length script) + acc) 0 scripts.

(** The destinations that ask for an output of their own. *)
Definition payments (ds : list TransactionDestination) : list TransactionDestination :=
  filter (fun d => SendMax d = false) ds.

(** The destinations marked SendMax. *)
Definition maxRecipients (ds : list TransactionDestination) : list TransactionDestination :=
  filter (fun d => SendMax d = true) ds.

(** ** address.go

    Address queries of a wallet.  The decoders of dcrutil and
    addresshelper and the wallet's own lookups are taken as given. *)
Module AddressBook.

(** What a call leaves behind: the value it returns, or a run-time panic
    (a method call on a nil record). *)
Inductive Outcome (A : Type) : Type :=
  | Returns (a : A)
  | Panics.
Arguments Returns {A} a.
Arguments Panics {A}.

(** [AddressInfo] struct *)
Record AddressInfo : Type := {
  Address : string;
  IsMine : bool;
  AccountNumber : Z;
  AccountName : string
}.

Section Wallet.

(** [dcrutil.Address] and the error of the decoders, with [err.Error()]. *)
Variable DcrAddress : Type.
Variable DecodeError : Type.
Variable errorText : DecodeError -> string.
(** [addresshelper.DecodeForNetwork(address, lw.activeNet.Params)] *)
Variable DecodeForNetwork : string -> DecodeError + DcrAddress.
(** [dcrutil.DecodeAddress(address)] *)
Variable DecodeAddress : string -> DecodeError + DcrAddress.
(** [lw.wallet.HaveAddress(addr)] *)
Variable WalletError : Type.
Variable walletHaveAddress : DcrAddress -> WalletError + bool.
(** [info, _ := lw.wallet.AddressInfo(addr)]: the record, [None] for nil. *)
Variable KnownAddress : Type.
Variable walletAddressInfo : DcrAddress -> option KnownAddress.
(** [info.Account()] *)
Variable Account : KnownAddress -> Z.
(** [lw.AccountName(accountNumber)] *)
Variable walletAccountName : Z -> string.

Definition IsAddressValid (address : string) : bool :=
  match DecodeForNetwork address with
  | inl _ => false
  | inr _ => true
  end.

Definition HaveAddress (address : string) : bool :=
  match DecodeForNetwork address with
  | inl _ => false
  | inr addr =>
      match walletHaveAddress addr with
      | inl _ => false
      | inr have => have
      end
  end.

(** [info.Account()] is called without a nil check. *)
Definition AccountOfAddress (address : string) : Outcome string :=
  match DecodeAddress address with
  | inl err => Returns (errorText err)
  | inr addr =>
      match walletAddressInfo addr with
      | None => Panics
      | Some info => Returns (walletAccountName (Account info))
      end
  end.

(** The method [AddressInfo]; the error is also logged. *)
Definition AddressInfoOf (address : string) : DecodeError + AddressInfo :=
  match DecodeAddress address with
  | inl err => inl err
  | inr addr =>
      let addressInfo :=
        {| Address := address; IsMine := false; AccountNumber := 0; AccountName := "" |} in
      match walletAddressInfo addr with
      | Some info =>
          inr {| Address := Address addressInfo;
                 IsMine := true;
                 AccountNumber := Account info;
                 AccountName := walletAccountName (Account info) |}
      | None => inr addressInfo
      end
  end.

End Wallet.
End AddressBook.

(** ** multiwallet.go: the loaded wallets

    [mw.wallets] maps wallet ids to wallets.  A [range] over a Go map
    visits every entry once in an unspecified order; the loops below take
    the wallets in the order they are visited. *)
Module Wallets.

(** The value a Go [int32] holds after an operation whose exact result is [x]. *)
Definition wrap32 (x : Z) : Z := (x + 2 ^ 31) mod 2 ^ 32 - 2 ^ 31.

(** The outcome of [mw.db.One]: found, [storm.ErrNotFound], or another error. *)
Inductive DbLookup (E : Type) : Type :=
  | Found
  | NotFound
  | Failed (e : E).
Arguments Found {E}.
Arguments NotFound {E}.
Arguments Failed {E} e.

Inductive NameError (E : Type) : Type :=
  | ErrReservedWalletName
  | DbFailure (e : E).
Arguments ErrReservedWalletName {E}.
Arguments DbFailure {E} e.

Section Registry.

(** [LibWallet] and what the functions read of it. *)
Variable LibWallet : Type.
Variable WalletOpened : LibWallet -> bool.
Variable WalletSeed : LibWallet -> string.
Variable synced : LibWallet -> bool.
Variable WalletID : LibWallet -> Z.

(** The orders in which a [range] over the map may visit the wallets. *)
Definition visits (wallets : gmap Z LibWallet) (visited : list LibWallet) : Prop :=
  visited ≡ₚ (map_to_list wallets).*2.

(** A loop that increments an [int32] counter for the wallets that pass a test. *)
Definition countWallets (test : LibWallet -> bool) (visited : list LibWallet) : Z :=
  fold_left (fun count w => if test w then wrap32 (count + 1) else count) visited 0.

Definition GetBackupsNeeded (visited : list LibWallet) : Z :=
  countWallets (fun w => WalletOpened w && bool_decide (WalletSeed w ≠ "")) visited.

Definition LoadedWalletsCount (wallets : gmap Z LibWallet) : Z :=
  wrap32 (Z.of_nat (size wallets)).

Definition OpenedWalletsRaw (visited : list LibWallet) : list Z :=
  fold_left (fun wallets w => if WalletOpened w then wallets ++ [WalletID w] else wallets)
            visited [].

Definition OpenedWalletsCount (visited : list LibWallet) : Z :=
  wrap32 (Z.of_nat (length (OpenedWalletsRaw visited))).

Definition SyncedWalletCount (visited : list LibWallet) : Z :=
  countWallets (fun w => WalletOpened w && synced w) visited.

(** [mw.wallets[walletID]], [None] for the nil of a missing key. *)
Definition GetWallet (wallets : gmap Z LibWallet) (walletID : Z) : option LibWallet :=
  wallets !! walletID.

(** [mw.db.One("WalletName", walletName, &LibWallet{})] *)
Variable DbError : Type.
Variable dbOneWalletName : string -> DbLookup DbError.

Definition WalletNameExists (walletName : string) : NameError DbError + bool :=
  if String.prefix "wallet-" walletName
  then inl ErrReservedWalletName
  else match dbOneWalletName walletName with
       | Found => inr true
       | NotFound => inr false
       | Failed e => inl (DbFailure e)
       end.

(** [strconv.Itoa] *)
Variable Itoa : Z -> string.

(** The name [createWallet] gives a new wallet:
    ["wallet-" + strconv.Itoa(walletID)]. *)
Definition generatedWalletName (walletID : Z) : string :=
  String.append "wallet-" (Itoa walletID).

End Registry.
End Wallets.

(** ** account_mixer.go: stopping the mixer

    [WalletWithID] is taken as given: it returns a reference to a wallet or
    nil.  The state is what the two functions touch: for every wallet
    reference the cancel function of its running mixer, if any, and the
    cancel functions called so far. *)
Module Mixer.

Inductive MixerError : Type :=
  | ErrNotExist
  | ErrInvalid.

Section Mixers.

Variable WalletRef : Type.
Context `{EqDecision WalletRef}.
Variable CancelFunc : Type.
(** [mw.WalletWithID(walletID)] *)
Variable WalletWithID : Z -> option WalletRef.

Record State : Type := {
  cancelAccountMixer : WalletRef -> option CancelFunc;
  cancelled : list CancelFunc
}.

(** [wallet.IsAccountMixerActive()] *)
Definition IsAccountMixerActive (st : State) (wallet : WalletRef) : bool :=
  bool_decide (is_Some (cancelAccountMixer st wallet)).

Definition StopAccountMixer (walletID : Z) (st : State) : option MixerError * State :=
  match WalletWithID walletID with
  | None => (Some ErrNotExist, st)
  | Some wallet =>
      match cancelAccountMixer st wallet with
      | None => (Some ErrInvalid, st)
      | Some cancel =>
          (None,
           {| cancelAccountMixer :=
                fun w => if decide (w = wallet) then None else cancelAccountMixer st w;
              cancelled := cancelled st ++ [cancel] |})
      end
  end.

End Mixers.
End Mixer.

(** ** account_mixer.go: setting up the mixer accounts

    The configuration store and the wallet's account and passphrase calls
    are taken as given.  The state is what the functions change: the
    configuration, and whether the wallet is locked.  [UnlockWallet]
    unlocks the wallet when it returns no error and [LockWallet] locks
    it. *)
Module MixerSetup.

Inductive ConfigKey : Type :=
  | AccountMixerConfigSet
  | AccountMixerMixedAccount
  | AccountMixerUnmixedAccount.

Inductive SetupError (E : Type) : Type :=
  | ErrInvalid
  | ErrExist
  | ErrNotExist
  | WalletFailure (e : E).
Arguments ErrInvalid {E}.
Arguments ErrExist {E}.
Arguments ErrNotExist {E}.
Arguments WalletFailure {E} e.

Section Setup.

(** The configuration store with its accessors. *)
Variable Config : Type.
Variable ReadBoolConfigValueForKey : Config -> ConfigKey -> bool -> bool.
Variable SetInt32ConfigValueForKey : Config -> ConfigKey -> Z -> Config.
Variable SetBoolConfigValueForKey : Config -> ConfigKey -> bool -> Config.

(** The wallet's calls: [HasAccount(name)], [GetAccount(number)] (whether
    it returns no error), [UnlockWallet(privPass)] (its error, if any) and
    [NextAccount(name)]; the last one creates an account, so its answer
    may depend on how many accounts the call has created before. *)
Variable WalletError : Type.
Variable HasAccount : string -> bool.
Variable GetAccount : Z -> bool.
Variable UnlockWallet : string -> option WalletError.
Variable NextAccount : nat -> string -> WalletError + Z.

Record Wallet : Type := {
  config : Config;
  locked : bool
}.

Definition unlockedWallet (w : Wallet) : Wallet := {| config := config w; locked := false |}.
Definition LockWallet (w : Wallet) : Wallet := {| config := config w; locked := true |}.

Definition setMixerConfig (w : Wallet) (mixed unmixed : Z) : Wallet :=
  let c := SetInt32ConfigValueForKey (config w) AccountMixerMixedAccount mixed in
  let c := SetInt32ConfigValueForKey c AccountMixerUnmixedAccount unmixed in
  let c := SetBoolConfigValueForKey c AccountMixerConfigSet true in
  {| config := c; locked := locked w |}.

(** The deferred [LockWallet] runs on every return after the unlock. *)
Definition CreateMixerAccounts (mixedAccount unmixedAccount privPass : string)
    (w : Wallet) : option (SetupError WalletError) * Wallet :=
  if ReadBoolConfigValueForKey (config w) AccountMixerConfigSet false
  then (Some ErrInvalid, w)
  else if HasAccount mixedAccount || HasAccount unmixedAccount
  then (Some ErrExist, w)
  else
    match UnlockWallet privPass with
    | Some err => (Some (WalletFailure err), w)
    | None =>
        let w := unlockedWallet w in
        match NextAccount 0 mixedAccount with
        | inl err => (Some (WalletFailure err), LockWallet w)
        | inr mixedAccountNumber =>
            match NextAccount 1 unmixedAccount with
            | inl err => (Some (WalletFailure err), LockWallet w)
            | inr unmixedAccountNumber =>
                (None, LockWallet (setMixerConfig w mixedAccountNumber unmixedAccountNumber))
            end
        end
    end.

Definition SetAccountMixerConfig (mixedAccount unmixedAccount : Z) (privPass : string)
    (w : Wallet) : option (SetupError WalletError) * Wallet :=
  if bool_decide (mixedAccount = unmixedAccount)
  then (Some ErrInvalid, w)
  else if negb (GetAccount mixedAccount)
  then (Some ErrNotExist, w)
  else if negb (GetAccount unmixedAccount)
  then (Some ErrNotExist, w)
  else
    match UnlockWallet privPass with
    | Some err => (Some (WalletFailure err), w)
    | None =>
        let w := LockWallet (unlockedWallet w) in
        (None, setMixerConfig w mixedAccount unmixedAccount)
    end.

Definition ClearMixerConfig (w : Wallet) : Wallet :=
  let c := SetInt32ConfigValueForKey (config w) AccountMixerMixedAccount (-1) in
  let c := SetInt32ConfigValueForKey c AccountMixerUnmixedAccount (-1) in
  let c := SetBoolConfigValueForKey c AccountMixerConfigSet false in
  {| config := c; locked := locked w |}.

End Setup.
End MixerSetup.

(** ** Sample wallets and addresses

    Small instances of what address.go and the wallet registry take as
    given, used to run their properties on concrete data. *)
Module Samples.

(** A wallet as the counting functions see it. *)
Record SampleWallet : Type := {
  sampleID : Z;
  sampleOpened : bool;
  sampleSeed : string;
  sampleSynced : bool
}.

Definition walletOne : SampleWallet :=
  {| sampleID := 1; sampleOpened := true; sampleSeed := "abandon ability"; sampleSynced := true |}.
Definition walletTwo : SampleWallet :=
  {| sampleID := 2; sampleOpened := true; sampleSeed := ""; sampleSynced := false |}.
Definition walletThree : SampleWallet :=
  {| sampleID := 3; sampleOpened := false; sampleSeed := "zoo zone"; sampleSynced := false |}.

Definition sampleWallets : gmap Z SampleWallet :=
  <[1 := walletOne]> (<[2 := walletTwo]> (<[3 := walletThree]> ∅)).

(** One order in which a loop may visit the sample wallets. *)
Definition sampleVisit : list SampleWallet := (map_to_list sampleWallets).*2.

(** The same wallets once every seed has been backed up and cleared. *)
Definition backedUpWallets : gmap Z SampleWallet :=
  <[1 := {| sampleID := 1; sampleOpened := true; sampleSeed := ""; sampleSynced := true |}]>
    (<[2 := walletTwo]> ∅).

(** A decoder that accepts the non-empty addresses, and a wallet that owns
    the addresses starting with "Ds". *)
Definition sampleDecode (address : string) : unit + string :=
  if bool_decide (address = "") then inl tt else inr address.

Definition sampleHave (address : string) : unit + bool :=
  inr (String.prefix "Ds" address).

(** A configuration store: the booleans and the integers written so far. *)
Definition SampleConfig : Type :=
  ((MixerSetup.ConfigKey -> option bool) * (MixerSetup.ConfigKey -> option Z))%type.

#[local] Instance ConfigKey_eq_dec : EqDecision MixerSetup.ConfigKey.
Proof. solve_decision. Defined.

Definition emptyConfig : SampleConfig := (fun _ => None, fun _ => None).

Definition sampleReadBool (c : SampleConfig) (key : MixerSetup.ConfigKey)
    (default : bool) : bool :=
  from_option id default (c.1 key).

Definition sampleSetInt32 (c : SampleConfig) (key : MixerSetup.ConfigKey)
    (value : Z) : SampleConfig :=
  (c.1, fun k => if decide (k = key) then Some value else c.2 k).

Definition sampleSetBool (c : SampleConfig) (key : MixerSetup.ConfigKey)
    (value : bool) : SampleConfig :=
  (fun k => if decide (k = key) then Some value else c.1 k, c.2).

(** A locked wallet with an empty configuration, and the same wallet once
    [SetAccountMixerConfig] has stored accounts 1 and 2. *)
Definition freshWallet : MixerSetup.Wallet SampleConfig :=
  {| MixerSetup.config := emptyConfig; MixerSetup.locked := true |}.

Definition configuredWallet : MixerSetup.Wallet SampleConfig :=
  (MixerSetup.SetAccountMixerConfig SampleConfig sampleSetInt32 sampleSetBool unit
     (fun _ => true) (fun _ => None) 1 2 "pass" freshWallet).2.

End Samples.

(** * Properties *)

(** ** int64 arithmetic *)

Lemma wrap64_range (x : Z) : in_int64 (wrap64 x).
Proof.
  unfold in_int64, wrap64, int64_min, int64_max, int64_modulus.
  pose proof (Z.mod_pos_bound (x + 2 ^ 63) (2 ^ 64)). lia.
Qed.

Lemma in_int64_0 : in_int64 0.
Proof. compute. split; discriminate. Qed.

Lemma wrap64_id (x : Z) : in_int64 x -> wrap64 x = x.
Proof.
  unfold in_int64, wrap64, int64_min, int64_max, int64_modulus. intros H.
  rewrite Z.mod_small by lia. lia.
Qed.

Lemma wrap64_congr (x : Z) : wrap64 x mod int64_modulus = x mod int64_modulus.
Proof.
  unfold wrap64, int64_modulus.
  rewrite Zminus_mod, Zmod_mod, <- Zminus_mod. f_equal. lia.
Qed.

Lemma wrap64_eq (x y : Z) :
  x mod int64_modulus = y mod int64_modulus -> wrap64 x = wrap64 y.
Proof.
  intros H. unfold wrap64.
  rewrite (Zplus_mod x), (Zplus_mod y). fold int64_modulus.
  rewrite H. reflexivity.
Qed.

Lemma wrap64_eqm (x : Z) : eqm64 (wrap64 x) x.
Proof. apply wrap64_congr. Qed.

Lemma wrap64_of_eqm (x y : Z) : eqm64 x y -> wrap64 x = wrap64 y.
Proof. apply wrap64_eq. Qed.

Lemma add64_eqm (x y : Z) : eqm64 (add64 x y) (x + y).
Proof. apply wrap64_eqm. Qed.

Lemma sub64_eqm (x y : Z) : eqm64 (sub64 x y) (x - y).
Proof. apply wrap64_eqm. Qed.

(** Proves [wrap64 a = wrap64 b] when [a] and [b] agree once every inner
    wrap-around is dropped. *)
Ltac wrap_eq :=
  apply wrap64_of_eqm;
  rewrite ?add64_eqm, ?sub64_eqm, ?wrap64_eqm;
  match goal with
  | |- eqm64 ?a ?b => replace a with b by lia; reflexivity
  end.

Lemma bind_ok_inv {A B : Type} (r : Result A) (k : A -> Result B) (b : B) :
  bind r k = Ok b -> exists a, r = Ok a /\ k a = Ok b.
Proof. destruct r; simpl; [eauto | discriminate]. Qed.

(** ** Sums and swaps *)

Lemma sumValues_app (l1 l2 : list TxOut) :
  sumValues (l1 ++ l2) = sumValues l1 + sumValues l2.
Proof. induction l1 as [|o l1 IH]; simpl; [reflexivity | rewrite IH; lia]. Qed.

Lemma swapOutputs_same (l : list TxOut) (i : nat) : swapOutputs l i i = l.
Proof.
  unfold swapOutputs. destruct (l !! i) as [a|] eqn:Hi; [|reflexivity].
  rewrite list_insert_insert_eq. apply list_insert_id. assumption.
Qed.

Lemma swapOutputs_lookup_r (l : list TxOut) (r index : nat) (b : TxOut) :
  (r < length l)%nat -> l !! index = Some b -> swapOutputs l r index !! r = Some b.
Proof.
  intros Hr Hi. unfold swapOutputs.
  destruct (lookup_lt_is_Some_2 l r Hr) as [a Ha]. rewrite Ha, Hi.
  destruct (decide (r = index)) as [->|Hne].
  - assert (a = b) as -> by congruence.
    apply list_lookup_insert_eq. rewrite length_insert. assumption.
  - rewrite list_lookup_insert_ne by congruence.
    apply list_lookup_insert_eq. assumption.
Qed.

Section AuthorProperties.

Variable MaxAmount : Z.
Variable MaxScriptElementSize : Z.
Variable DefaultRelayFeePerKb : Z.
Variable RedeemP2PKHSigScriptSize : Z.
Variable PkScriptOf : string -> option bytes.
Variable EstimateSerializeSize : list Z -> list TxOut -> Z -> Z.
Variable FeeForSerializeSize : Z -> Z -> Z.
Variable IsDustAmount : Z -> Z -> Z -> bool.
Variable nextInternalAddress : option string.

Local Abbreviation parseLoop := (parseLoop MaxAmount PkScriptOf).
Local Abbreviation parse := (ParseOutputsAndChangeDestination MaxAmount PkScriptOf).
Local Abbreviation makeTxOutput := (MakeTxOutput PkScriptOf).
Local Abbreviation scriptSize := (calculateChangeScriptSize PkScriptOf).
Local Abbreviation multipleScriptSize := (calculateMultipleChangeScriptSize PkScriptOf).
Local Abbreviation scriptSizeLoop := (multipleChangeScriptSizeLoop PkScriptOf).
Local Abbreviation resolve := (resolveChangeRecipient nextInternalAddress).
Local Abbreviation activeSize := (activeChangeScriptSize PkScriptOf).
Local Abbreviation changeLoop := (changeLoop PkScriptOf).
Local Abbreviation sizesOf := (inputScriptSizesOf RedeemP2PKHSigScriptSize).
Local Abbreviation feeFor := (FeeForSerializeSize DefaultRelayFeePerKb).
Local Abbreviation prepare := (prepare MaxAmount PkScriptOf nextInternalAddress).
Local Abbreviation sizeWithChange :=
  (sizeWithChange RedeemP2PKHSigScriptSize EstimateSerializeSize).
Local Abbreviation feeWithChange :=
  (feeWithChange DefaultRelayFeePerKb RedeemP2PKHSigScriptSize EstimateSerializeSize
     FeeForSerializeSize).
Local Abbreviation computedChange :=
  (computedChange DefaultRelayFeePerKb RedeemP2PKHSigScriptSize EstimateSerializeSize
     FeeForSerializeSize).
Local Abbreviation changeOutputOf := (changeOutputOf PkScriptOf).
Local Abbreviation finish :=
  (finish MaxScriptElementSize DefaultRelayFeePerKb RedeemP2PKHSigScriptSize PkScriptOf
     EstimateSerializeSize FeeForSerializeSize IsDustAmount).
Local Abbreviation construct :=
  (constructCustomTransaction MaxAmount MaxScriptElementSize DefaultRelayFeePerKb
     RedeemP2PKHSigScriptSize PkScriptOf EstimateSerializeSize FeeForSerializeSize
     IsDustAmount nextInternalAddress).

(** ** The destination parser *)

Lemma MakeTxOutput_value (address : string) (amount : Z) (o : TxOut) :
  makeTxOutput address amount = Some o -> Value o = amount.
Proof.
  unfold MakeTxOutput. destruct (PkScriptOf address); [|discriminate].
  intros [= <-]. reflexivity.
Qed.

(** Parsing a concatenation runs the loop on the first part and continues
    from the state it leaves. *)
Lemma parseLoop_app (pre rest : list TransactionDestination)
    (o : list TxOut) (t : Z) (m : string) :
  parseLoop (pre ++ rest) o t m =
  try (o', t', m') <- parseLoop pre o t m in parseLoop rest o' t' m'.
Proof.
  revert o t m. induction pre as [|d pre IH]; intros o t m; simpl; [reflexivity|].
  destruct (negb (SendMax d) && _); [reflexivity|].
  destruct (SendMax d && _); [reflexivity|].
  destruct (SendMax d); [apply IH|].
  destruct (makeTxOutput _ _); [apply IH | reflexivity].
Qed.

(** Once a max-amount recipient is recorded it is never replaced. *)
Lemma parseLoop_recipient_kept (ds : list TransactionDestination)
    (o o' : list TxOut) (t t' : Z) (m m' : string) :
  m <> "" -> parseLoop ds o t m = Ok (o', t', m') -> m' = m.
Proof.
  intros Hm. revert o t. induction ds as [|d ds IH]; intros o t; simpl.
  - intros [= _ _ <-]. reflexivity.
  - destruct (negb (SendMax d) && _); [discriminate|].
    rewrite bool_decide_eq_true_2 by assumption.
    destruct (SendMax d); simpl; [discriminate|].
    destruct (makeTxOutput _ _); [apply IH | discriminate].
Qed.

(** A destination marked SendMax is rejected when a recipient is recorded. *)
Lemma parseLoop_second_max (d : TransactionDestination)
    (rest : list TransactionDestination) (o : list TxOut) (t : Z) (m : string) :
  SendMax d = true -> m <> "" ->
  parseLoop (d :: rest) o t m = Err MultipleMaxAmountRecipients.
Proof.
  intros Hd Hm. simpl. rewrite Hd. simpl.
  rewrite bool_decide_eq_true_2 by assumption. reflexivity.
Qed.

(** A destination marked SendMax is accepted, and recorded, when no
    recipient is recorded yet. *)
Lemma parseLoop_first_max (d : TransactionDestination)
    (rest : list TransactionDestination) (o : list TxOut) (t : Z) :
  SendMax d = true ->
  parseLoop (d :: rest) o t "" = parseLoop rest o t (Address d).
Proof. intros Hd. simpl. rewrite Hd. simpl. reflexivity. Qed.

Lemma parseLoop_invalid_amount (d : TransactionDestination)
    (rest : list TransactionDestination) (o : list TxOut) (t : Z) (m : string) :
  SendMax d = false -> AtomAmount d <= 0 \/ MaxAmount < AtomAmount d ->
  parseLoop (d :: rest) o t m = Err InvalidAmount.
Proof.
  intros Hd Ha. simpl. rewrite Hd. simpl.
  destruct Ha as [Ha|Ha].
  - apply Z.leb_le in Ha. rewrite Ha. reflexivity.
  - apply Z.ltb_lt in Ha. rewrite Ha, orb_true_r. reflexivity.
Qed.

(** The loop only appends outputs, and the running total follows their
    values in int64 arithmetic. *)
Lemma parseLoop_outputs (ds : list TransactionDestination)
    (o o' : list TxOut) (t t' : Z) (m m' : string) :
  parseLoop ds o t m = Ok (o', t', m') ->
  exists new, o' = o ++ new /\ wrap64 t' = wrap64 (t + sumValues new).
Proof.
  revert o t m. induction ds as [|d ds IH]; intros o t m; simpl.
  - intros [= <- <- <-]. exists []. rewrite app_nil_r. split; [reflexivity|].
    simpl. f_equal. lia.
  - destruct (negb (SendMax d) && _); [discriminate|].
    destruct (SendMax d && _); [discriminate|].
    destruct (SendMax d); [apply IH|].
    destruct (makeTxOutput _ _) as [out|] eqn:Hout; [|discriminate].
    intros H. destruct (IH _ _ _ H) as (new & -> & Ht).
    exists (out :: new). rewrite <- app_assoc. split; [reflexivity|].
    rewrite Ht. simpl. wrap_eq.
Qed.

Lemma parseLoop_total_range (ds : list TransactionDestination)
    (o o' : list TxOut) (t t' : Z) (m m' : string) :
  in_int64 t -> parseLoop ds o t m = Ok (o', t', m') -> in_int64 t'.
Proof.
  revert o t m. induction ds as [|d ds IH]; intros o t m Ht; simpl.
  - intros [= <- <- <-]. assumption.
  - destruct (negb (SendMax d) && _); [discriminate|].
    destruct (SendMax d && _); [discriminate|].
    destruct (SendMax d); [apply IH; assumption|].
    destruct (makeTxOutput _ _) as [out|]; [|discriminate].
    apply IH. apply wrap64_range.
Qed.

(** The total returned by the parser is the int64 sum of the values of the
    outputs it returns. *)
Lemma parse_total (ds : list TransactionDestination)
    (outs : list TxOut) (total : Z) (m : string) :
  parse ds = Ok (outs, total, m) -> total = wrap64 (sumValues outs).
Proof.
  intros H. pose proof (parseLoop_total_range _ _ _ _ _ _ _ in_int64_0 H) as Hr.
  apply parseLoop_outputs in H as (new & -> & Ht).
  rewrite <- (wrap64_id total Hr), Ht. reflexivity.
Qed.

(** A successful parse of a list holding a SendMax destination with a
    non-empty address returns a non-empty max-amount recipient. *)
Lemma parse_ok_recipient (pre mid : list TransactionDestination)
    (d : TransactionDestination) (o : list TxOut) (t : Z) (m : string) :
  SendMax d = true -> Address d <> "" ->
  parse (pre ++ d :: mid) = Ok (o, t, m) -> m <> "".
Proof.
  intros Hd Ha. unfold ParseOutputsAndChangeDestination.
  rewrite parseLoop_app.
  destruct (parseLoop pre [] 0 "") as [[[o1 t1] m1]|e]; cbn [bind]; [|discriminate].
  destruct (decide (m1 = "")) as [->|Hm1].
  - rewrite parseLoop_first_max by assumption. intros H.
    apply parseLoop_recipient_kept in H; [|assumption]. congruence.
  - rewrite parseLoop_second_max by assumption. discriminate.
Qed.

Lemma parse_app (l rest : list TransactionDestination) :
  parse (l ++ rest) = try (o, t, m) <- parse l in parseLoop rest o t m.
Proof. apply parseLoop_app. Qed.

(** C4, as amended: when two destinations are marked SendMax and the
    earlier one has a non-empty address, parsing never succeeds (no
    recipient is silently picked); and if the destinations before the later
    one parse without error, the error is MultipleMaxAmountRecipients. *)
Theorem parse_two_max_recipients (pre mid post : list TransactionDestination)
    (d1 d2 : TransactionDestination) :
  SendMax d1 = true -> Address d1 <> "" -> SendMax d2 = true ->
  is_ok (parse (pre ++ d1 :: mid ++ d2 :: post)) = false /\
  (is_ok (parse (pre ++ d1 :: mid)) = true ->
   parse (pre ++ d1 :: mid ++ d2 :: post) = Err MultipleMaxAmountRecipients).
Proof.
  intros H1 Ha H2.
  assert (pre ++ d1 :: mid ++ d2 :: post = (pre ++ d1 :: mid) ++ d2 :: post) as ->
    by (rewrite <- app_assoc; reflexivity).
  rewrite parse_app.
  destruct (parse (pre ++ d1 :: mid)) as [[[o t] m]|e] eqn:Hp; cbn [bind].
  - pose proof (parse_ok_recipient _ _ _ _ _ _ H1 Ha Hp) as Hm.
    rewrite parseLoop_second_max by assumption.
    split; [reflexivity | intros _; reflexivity].
  - split; [reflexivity | discriminate].
Qed.

(** C8, as amended: a destination not marked SendMax whose amount is zero,
    negative or above the maximum makes parsing fail; the error is
    InvalidAmount when the destinations before it parse without error, in
    particular when it comes first. *)
Theorem parse_invalid_amount (pre post : list TransactionDestination)
    (d : TransactionDestination) :
  SendMax d = false -> AtomAmount d <= 0 \/ MaxAmount < AtomAmount d ->
  is_ok (parse (pre ++ d :: post)) = false /\
  (is_ok (parse pre) = true -> parse (pre ++ d :: post) = Err InvalidAmount) /\
  parse (d :: post) = Err InvalidAmount.
Proof.
  intros Hd Ha. rewrite parse_app.
  split; [|split].
  - destruct (parse pre) as [[[o t] m]|e]; cbn [bind]; [|reflexivity].
    rewrite parseLoop_invalid_amount by assumption. reflexivity.
  - destruct (parse pre) as [[[o t] m]|e]; cbn [bind is_ok]; [|discriminate].
    intros _. apply parseLoop_invalid_amount; assumption.
  - apply parseLoop_invalid_amount; assumption.
Qed.

(** ** The author, step by step *)

Lemma construct_prepare (tape : Tape) (inputs : list TxIn)
    (sd cd : list TransactionDestination) :
  construct tape inputs sd cd =
  try (outs, total, m, css) <- prepare sd cd in finish tape inputs cd outs total m css.
Proof.
  unfold constructCustomTransaction, prepare.
  destruct (parse sd) as [[[outs total] m0]|e]; cbn [bind]; [|reflexivity].
  destruct (resolve m0 cd) as [m|e]; cbn [bind]; [|reflexivity].
  destruct (activeSize m cd) as [css|e]; cbn [bind]; reflexivity.
Qed.

Lemma construct_ok_inv (tape : Tape) (inputs : list TxIn)
    (sd cd : list TransactionDestination) (tx : AuthoredTx) :
  construct tape inputs sd cd = Ok tx ->
  exists outs total m css,
    prepare sd cd = Ok (outs, total, m, css) /\
    finish tape inputs cd outs total m css = Ok tx.
Proof.
  rewrite construct_prepare. intros H.
  apply bind_ok_inv in H as ([[[outs total] m] css] & Hp & Hf). eauto 8.
Qed.

Lemma construct_from_prepare (tape : Tape) (inputs : list TxIn)
    (sd cd : list TransactionDestination)
    (outs : list TxOut) (total : Z) (m : string) (css : Z) :
  prepare sd cd = Ok (outs, total, m, css) ->
  construct tape inputs sd cd = finish tape inputs cd outs total m css.
Proof. intros H. rewrite construct_prepare, H. reflexivity. Qed.

Lemma totalInputAmountOf_from (inputs : list TxIn) (acc : Z) :
  wrap64 (fold_left (fun total input => add64 total (ValueIn input)) inputs acc)
  = wrap64 (acc + sumValueIn inputs).
Proof.
  revert acc. induction inputs as [|i inputs IH]; intros acc; simpl.
  - f_equal. lia.
  - rewrite IH. wrap_eq.
Qed.

Lemma totalInputAmountOf_range_from (inputs : list TxIn) (acc : Z) :
  in_int64 acc ->
  in_int64 (fold_left (fun total input => add64 total (ValueIn input)) inputs acc).
Proof.
  revert acc. induction inputs as [|i inputs IH]; intros acc Hacc; simpl; [assumption|].
  apply IH, wrap64_range.
Qed.

Lemma totalInputAmountOf_range (inputs : list TxIn) :
  in_int64 (totalInputAmountOf inputs).
Proof. apply totalInputAmountOf_range_from, in_int64_0. Qed.

(** The input total of the source's loop is the int64 sum of the inputs. *)
Lemma totalInputAmountOf_sum (inputs : list TxIn) :
  totalInputAmountOf inputs = wrap64 (sumValueIn inputs).
Proof.
  rewrite <- (wrap64_id _ (totalInputAmountOf_range inputs)).
  unfold totalInputAmountOf. rewrite totalInputAmountOf_from. reflexivity.
Qed.

(** What a successful run of the rest of the closure looks like. *)
Lemma finish_ok_inv (tape : Tape) (inputs : list TxIn)
    (cd : list TransactionDestination)
    (outs : list TxOut) (total : Z) (m : string) (css : Z) (tx : AuthoredTx) :
  finish tape inputs cd outs total m css = Ok tx ->
  let ca := computedChange inputs outs total css in
  0 <= ca /\
  ((ca <> 0 /\ IsDustAmount ca css DefaultRelayFeePerKb = false /\
    css <= MaxScriptElementSize /\
    exists outs' tot,
      changeLoop tape 0 (effectiveChangeDestinations m ca cd) outs 0 = Ok (outs', tot) /\
      tot <= ca /\
      tx = authored inputs outs' (totalInputAmountOf inputs) (sizeWithChange inputs outs css))
   \/
   ((ca = 0 \/ IsDustAmount ca css DefaultRelayFeePerKb = true) /\
    tx = authored inputs outs (totalInputAmountOf inputs)
           (EstimateSerializeSize (sizesOf inputs) outs 0))).
Proof.
  intros H ca. unfold finish in H. fold ca in H.
  destruct (ca <? 0) eqn:Hneg; [discriminate|]. apply Z.ltb_ge in Hneg.
  split; [assumption|].
  destruct (ca =? 0) eqn:Hz; cbn [negb andb] in H.
  - right. apply Z.eqb_eq in Hz. injection H as <-. auto.
  - apply Z.eqb_neq in Hz.
    destruct (IsDustAmount ca css DefaultRelayFeePerKb) eqn:Hd; cbn [negb] in H.
    + right. injection H as <-. auto.
    + left. destruct (MaxScriptElementSize <? css) eqn:Hs; [discriminate|].
      apply Z.ltb_ge in Hs.
      apply bind_ok_inv in H as ([outs' tot] & Hl & H).
      destruct (ca <? tot) eqn:Ht; [discriminate|]. apply Z.ltb_ge in Ht.
      injection H as <-. eauto 10.
Qed.

(** ** Inputs and the input total *)

(** C9: a returned transaction carries the int64 sum of the input values
    as TotalInput (their exact sum whenever that sum fits an int64), and
    its input sequence is the supplied one, unchanged. *)
Theorem authored_inputs_preserved (tape : Tape) (inputs : list TxIn)
    (sd cd : list TransactionDestination) (tx : AuthoredTx) :
  construct tape inputs sd cd = Ok tx ->
  TotalInput tx = wrap64 (sumValueIn inputs) /\
  (in_int64 (sumValueIn inputs) -> TotalInput tx = sumValueIn inputs) /\
  TxIns (Tx tx) = inputs.
Proof.
  intros H. apply construct_ok_inv in H as (outs & total & m & css & _ & Hf).
  apply finish_ok_inv in Hf as [_ [(_ & _ & _ & outs' & tot & _ & _ & ->)|(_ & ->)]];
    cbn [authored TotalInput Tx TxIns];
    rewrite totalInputAmountOf_sum;
    (split; [reflexivity | split; [apply wrap64_id | reflexivity]]).
Qed.

(** ** Insufficient funds *)

(** C3: when the change computed from the with-change fee is negative the
    call fails with InsufficientFunds carrying the shortfall, which is
    fee + totalSend - totalInput; a call that returns a transaction has a
    non-negative computed change. *)
Theorem insufficient_funds (tape : Tape) (inputs : list TxIn)
    (sd cd : list TransactionDestination)
    (outs : list TxOut) (total : Z) (m : string) (css : Z) :
  prepare sd cd = Ok (outs, total, m, css) ->
  let fee := feeWithChange inputs outs css in
  let ca := computedChange inputs outs total css in
  let shortfall := fee + total - totalInputAmountOf inputs in
  (ca < 0 ->
     construct tape inputs sd cd = Err (InsufficientFunds (sub64 0 ca)) /\
     sub64 0 ca = wrap64 shortfall /\
     (in_int64 shortfall -> sub64 0 ca = shortfall)) /\
  (forall tx, construct tape inputs sd cd = Ok tx -> 0 <= ca).
Proof.
  intros Hp fee ca shortfall.
  rewrite (construct_from_prepare _ _ _ _ _ _ _ _ Hp).
  assert (sub64 0 ca = wrap64 shortfall) as Hs.
  { unfold ca, shortfall, computedChange, changeAmountOf. fold fee.
    unfold sub64 at 1. wrap_eq. }
  split.
  - intros Hneg. split; [|split].
    + unfold finish. fold ca. apply Z.ltb_lt in Hneg. rewrite Hneg. reflexivity.
    + exact Hs.
    + intros Hr. rewrite Hs. apply wrap64_id, Hr.
  - intros tx Hf. apply finish_ok_inv in Hf as [Hca _]. exact Hca.
Qed.

(** ** The change loop *)

Lemma sumValues_perm (l l' : list TxOut) : l ≡ₚ l' -> sumValues l = sumValues l'.
Proof. induction 1; simpl; lia. Qed.

Lemma insert_cons_perm (l : list TxOut) (j : nat) (a b : TxOut) :
  l !! j = Some b -> b :: <[j := a]> l ≡ₚ a :: l.
Proof.
  revert j. induction l as [|c l IH]; intros [|j] H; simpl in *; try discriminate.
  - injection H as ->. apply perm_swap.
  - rewrite perm_swap. rewrite (IH j H). apply perm_swap.
Qed.

Lemma swapOutputs_perm (l : list TxOut) (r index : nat) : swapOutputs l r index ≡ₚ l.
Proof.
  revert r index. induction l as [|c l IH]; intros r index; [destruct r; reflexivity|].
  unfold swapOutputs.
  destruct r as [|r], index as [|index]; simpl.
  - reflexivity.
  - destruct (l !! index) as [b|] eqn:Hb; [|reflexivity].
    simpl. apply insert_cons_perm. assumption.
  - destruct (l !! r) as [a|] eqn:Ha; [|reflexivity].
    simpl. apply insert_cons_perm. assumption.
  - specialize (IH r index). unfold swapOutputs in IH.
    destruct (l !! r), (l !! index); simpl; try reflexivity.
    rewrite IH. reflexivity.
Qed.

Lemma changeOutputOf_sum (cds : list TransactionDestination) (cs : list TxOut) :
  Forall2 changeOutputOf cds cs -> sumValues cs = sumAmounts cds.
Proof.
  induction 1 as [|d c cds cs Hd _ IH]; simpl; [reflexivity|].
  rewrite (MakeTxOutput_value _ _ _ Hd), IH. reflexivity.
Qed.

(** A successful run of the change loop appends one output per change
    destination, at the stated amount, up to the order of the outputs, and
    its total follows the stated amounts in int64 arithmetic. *)
Lemma changeLoop_ok (tape : Tape) (cds : list TransactionDestination) (k : nat)
    (outs : list TxOut) (t : Z) (outs' : list TxOut) (tot : Z) :
  changeLoop tape k cds outs t = Ok (outs', tot) ->
  exists cs, Forall2 changeOutputOf cds cs /\ outs' ≡ₚ outs ++ cs /\
             wrap64 tot = wrap64 (t + sumAmounts cds) /\
             (in_int64 t -> in_int64 tot).
Proof.
  revert k outs t. induction cds as [|d cds IH]; intros k outs t; simpl.
  - intros [= <- <-]. exists []. rewrite app_nil_r.
    split; [constructor|]. split; [reflexivity|].
    split; [f_equal; lia | auto].
  - destruct (makeTxOutput _ _) as [c|] eqn:Hc; [|discriminate].
    intros H. apply IH in H as (cs & Hcs & Hperm & Htot & Hr).
    exists (c :: cs). split; [constructor; assumption|].
    split; [|split].
    + rewrite Hperm. unfold RandomizeOutputPosition.
      rewrite swapOutputs_perm, <- app_assoc. reflexivity.
    + rewrite Htot, (MakeTxOutput_value _ _ _ Hc). wrap_eq.
    + intros _. apply Hr, wrap64_range.
Qed.

(** The loop fails only on an address without a locking script. *)
Lemma changeLoop_runs (tape : Tape) (cds : list TransactionDestination) (k : nat)
    (outs : list TxOut) (t : Z) :
  Forall (fun d => is_Some (PkScriptOf (Address d))) cds ->
  exists outs' tot, changeLoop tape k cds outs t = Ok (outs', tot).
Proof.
  intros H. revert k outs t.
  induction H as [|d cds [script Hd] _ IH]; intros k outs t; simpl; [eauto|].
  unfold MakeTxOutput. rewrite Hd. apply IH.
Qed.

Lemma changeLoop_total_exact (tape : Tape) (cds : list TransactionDestination)
    (k : nat) (outs outs' : list TxOut) (tot : Z) :
  changeLoop tape k cds outs 0 = Ok (outs', tot) -> tot = wrap64 (sumAmounts cds).
Proof.
  intros H. apply changeLoop_ok in H as (cs & _ & _ & Htot & Hr).
  rewrite <- (wrap64_id tot (Hr in_int64_0)), Htot. reflexivity.
Qed.

(** ** Change script sizes *)

Lemma scriptSizeLoop_ok (cds : list TransactionDestination) (acc css : Z) :
  scriptSizeLoop cds acc = Ok css ->
  Forall (fun d => is_Some (PkScriptOf (Address d))) cds /\
  acc <= css /\
  forall d script, d ∈ cds -> PkScriptOf (Address d) = Some script ->
                   acc + Z.of_nat (length script) <= css.
Proof.
  revert acc. induction cds as [|d cds IH]; intros acc; simpl.
  - intros [= <-]. split; [constructor|]. split; [lia|].
    intros d script Hd. inversion Hd.
  - unfold calculateChangeScriptSize, changeSourceScriptSize.
    destruct (PkScriptOf (Address d)) as [script|] eqn:Hs; cbn [bind]; [|discriminate].
    intros H. apply IH in H as (Hall & Hle & Hin).
    split; [constructor; [eauto | assumption]|].
    split; [lia|].
    intros d' script' Hd' Hs'. apply elem_of_cons in Hd' as [->|Hd'].
    + assert (script' = script) as -> by congruence. lia.
    + specialize (Hin d' script' Hd' Hs'). lia.
Qed.

Lemma prepare_ok_inv (sd cd : list TransactionDestination)
    (outs : list TxOut) (total : Z) (m : string) (css : Z) :
  prepare sd cd = Ok (outs, total, m, css) ->
  exists m0, parse sd = Ok (outs, total, m0) /\ resolve m0 cd = Ok m /\
             activeSize m cd = Ok css.
Proof.
  unfold prepare. intros H.
  apply bind_ok_inv in H as ([[outs0 total0] m0] & Hp & H).
  apply bind_ok_inv in H as (m1 & Hr & H).
  apply bind_ok_inv in H as (css1 & Hs & H).
  injection H as <- <- <- <-. eauto.
Qed.

(** The change destinations the loop runs over all have a locking script. *)
Lemma effective_destinations_decode (cd : list TransactionDestination)
    (m : string) (css ca : Z) :
  activeSize m cd = Ok css ->
  Forall (fun d => is_Some (PkScriptOf (Address d)))
         (effectiveChangeDestinations m ca cd).
Proof.
  unfold activeChangeScriptSize, effectiveChangeDestinations.
  destruct (bool_decide (m ≠ "")).
  - unfold calculateChangeScriptSize, changeSourceScriptSize.
    destruct (PkScriptOf m) as [script|] eqn:Hs; [|discriminate].
    intros _. repeat constructor. simpl. rewrite Hs. eauto.
  - intros H. apply scriptSizeLoop_ok in H as [H _]. exact H.
Qed.

(** ** Dust suppression *)

(** C2: when the computed change is zero or dust, a returned transaction
    has exactly the parsed payment outputs (no change output), its size is
    the estimate without a change slot, and what is left to the fee is
    totalInput - totalSend; the call does return when the change is not
    negative. *)
Theorem dust_change_dropped (tape : Tape) (inputs : list TxIn)
    (sd cd : list TransactionDestination)
    (outs : list TxOut) (total : Z) (m : string) (css : Z) :
  prepare sd cd = Ok (outs, total, m, css) ->
  let ca := computedChange inputs outs total css in
  ca = 0 \/ IsDustAmount ca css DefaultRelayFeePerKb = true ->
  (0 <= ca ->
     construct tape inputs sd cd =
     Ok (authored inputs outs (totalInputAmountOf inputs)
           (EstimateSerializeSize (sizesOf inputs) outs 0))) /\
  (forall tx, construct tape inputs sd cd = Ok tx ->
     TxOuts (Tx tx) = outs /\
     EstimatedSignedSerializeSize tx = EstimateSerializeSize (sizesOf inputs) outs 0 /\
     sub64 (TotalInput tx) (sumValues (TxOuts (Tx tx)))
       = sub64 (totalInputAmountOf inputs) total).
Proof.
  intros Hp ca Hdust.
  rewrite (construct_from_prepare _ _ _ _ _ _ _ _ Hp).
  assert (0 <= ca ->
          finish tape inputs cd outs total m css =
          Ok (authored inputs outs (totalInputAmountOf inputs)
                (EstimateSerializeSize (sizesOf inputs) outs 0))) as Hrun.
  { intros Hca. unfold finish. fold ca.
    apply Z.ltb_ge in Hca. rewrite Hca.
    destruct Hdust as [Hz|Hd].
    - apply Z.eqb_eq in Hz. rewrite Hz. reflexivity.
    - rewrite Hd, andb_false_r. reflexivity. }
  split; [exact Hrun|].
  intros tx Hf. pose proof Hf as Hinv.
  apply finish_ok_inv in Hinv as [Hca _]. fold ca in Hca.
  rewrite (Hrun Hca) in Hf. injection Hf as <-.
  cbn [authored Tx TxOuts TotalInput EstimatedSignedSerializeSize].
  split; [reflexivity|]. split; [reflexivity|].
  apply prepare_ok_inv in Hp as (m0 & Hparse & _ & _).
  rewrite (parse_total _ _ _ _ Hparse). unfold sub64. wrap_eq.
Qed.

(** ** Conservation of value *)

(** C1, as amended: for a returned transaction with materialized change,
    outputs plus the fee for the returned size equal TotalInput in
    single-recipient mode (max-amount or wallet change address); in
    explicit-change mode the stated change amounts do not exceed the
    computed change and outputs plus fee plus the unallocated change equal
    TotalInput; without change the outputs are the payment outputs and
    sum to totalSend.  Sums are int64 sums, exact when they fit. *)
Theorem conservation (tape : Tape) (inputs : list TxIn)
    (sd cd : list TransactionDestination)
    (outs : list TxOut) (total : Z) (m : string) (css : Z) (tx : AuthoredTx) :
  prepare sd cd = Ok (outs, total, m, css) ->
  construct tape inputs sd cd = Ok tx ->
  let ca := computedChange inputs outs total css in
  let fee := feeFor (EstimatedSignedSerializeSize tx) in
  let paid := sumValues (TxOuts (Tx tx)) in
  (ca <> 0 -> IsDustAmount ca css DefaultRelayFeePerKb = false -> m <> "" ->
     wrap64 (paid + fee) = TotalInput tx /\
     (in_int64 (paid + fee) -> paid + fee = TotalInput tx)) /\
  (ca <> 0 -> IsDustAmount ca css DefaultRelayFeePerKb = false -> m = "" ->
     wrap64 (sumAmounts cd) <= ca /\
     wrap64 (paid + fee + (ca - sumAmounts cd)) = TotalInput tx /\
     (sumAmounts cd = ca -> in_int64 (paid + fee) -> paid + fee = TotalInput tx)) /\
  (ca = 0 \/ IsDustAmount ca css DefaultRelayFeePerKb = true ->
     TxOuts (Tx tx) = outs /\ wrap64 paid = total).
Proof.
  intros Hp Hc ca fee paid.
  rewrite (construct_from_prepare _ _ _ _ _ _ _ _ Hp) in Hc.
  apply prepare_ok_inv in Hp as (m0 & Hparse & _ & _).
  pose proof (parse_total _ _ _ _ Hparse) as Htotal.
  pose proof (totalInputAmountOf_range inputs) as HI.
  apply finish_ok_inv in Hc as [Hca Hcases]. fold ca in Hca, Hcases.
  destruct Hcases as [(Hnz & Hnd & _ & outs' & tot & Hloop & Htot & ->)|(Hdrop & ->)];
    subst fee paid;
    cbn [authored Tx TxOuts TotalInput EstimatedSignedSerializeSize].
  - pose proof (changeLoop_total_exact _ _ _ _ _ _ Hloop) as Hexact.
    apply changeLoop_ok in Hloop as (cs & Hcs & Hperm & _ & _).
    rewrite (sumValues_perm _ _ Hperm), sumValues_app, (changeOutputOf_sum _ _ Hcs).
    assert (forall x, wrap64 (sumValues outs + x + feeWithChange inputs outs css
                              + (ca - x)) = totalInputAmountOf inputs) as Hsum.
    { intros x.
      transitivity (wrap64 (totalInputAmountOf inputs)); [|apply wrap64_id, HI].
      unfold ca, computedChange, changeAmountOf. rewrite Htotal. wrap_eq. }
    unfold effectiveChangeDestinations in *.
    split; [|split].
    + intros _ _ Hm. rewrite bool_decide_eq_true_2 in * by assumption.
      cbn [sumAmounts foldr AtomAmount] in *.
      assert (wrap64 (sumValues outs + (ca + 0) + feeFor (sizeWithChange inputs outs css))
              = totalInputAmountOf inputs) as Heq.
      { rewrite <- (Hsum (ca + 0)). f_equal. unfold feeWithChange. lia. }
      split; [exact Heq|]. intros Hr. rewrite <- Heq. symmetry. apply wrap64_id, Hr.
    + intros _ _ Hm. rewrite bool_decide_eq_false_2 in * by (intros Hne; apply Hne, Hm).
      split; [rewrite <- Hexact; exact Htot|].
      split; [apply Hsum|].
      intros Hall Hr. rewrite <- (Hsum (sumAmounts cd)), Hall.
      replace (sumValues outs + ca + feeWithChange inputs outs css + (ca - ca))
        with (sumValues outs + ca + feeFor (sizeWithChange inputs outs css))
        by (unfold feeWithChange; lia).
      symmetry. apply wrap64_id. rewrite <- Hall. exact Hr.
    + intros [Hz|Hd]; [contradiction | congruence].
  - split; [|split].
    + intros Hnz Hnd. destruct Hdrop; [contradiction | congruence].
    + intros Hnz Hnd. destruct Hdrop; [contradiction | congruence].
    + intros _. split; [reflexivity | symmetry; exact Htotal].
Qed.

(** ** Change mode *)

(** C5, as amended: a SendMax destination with a non-empty address together
    with a non-empty list of explicit change destinations never yields a
    transaction; the error is ConflictingChangeSpecification whenever the
    destination list itself parses without error. *)
Theorem conflicting_change_rejected (tape : Tape) (inputs : list TxIn)
    (sd cd : list TransactionDestination) (d : TransactionDestination) :
  d ∈ sd -> SendMax d = true -> Address d <> "" -> cd <> [] ->
  is_ok (construct tape inputs sd cd) = false /\
  (is_ok (parse sd) = true ->
   construct tape inputs sd cd = Err ConflictingChangeSpecification).
Proof.
  intros Hin Hd Ha Hcd.
  apply list_elem_of_split in Hin as (pre & mid & ->).
  unfold constructCustomTransaction.
  destruct (parse (pre ++ d :: mid)) as [[[outs total] m0]|e] eqn:Hp; cbn [bind is_ok].
  - pose proof (parse_ok_recipient _ _ _ _ _ _ Hd Ha Hp) as Hm.
    unfold resolveChangeRecipient.
    rewrite bool_decide_eq_true_2 by assumption.
    rewrite bool_decide_eq_true_2 by (destruct cd; [contradiction | simpl; lia]).
    cbn [andb bind is_ok]. split; [reflexivity | intros _; reflexivity].
  - split; [reflexivity | discriminate].
Qed.

(** ** Explicit change destinations *)

(** C6: in explicit-change mode with a positive, non-dust computed change,
    a change destination whose locking script is longer than the maximum
    script element size makes the call fail with ScriptTooLarge. *)
Theorem change_script_too_large (tape : Tape) (inputs : list TxIn)
    (sd cd : list TransactionDestination)
    (outs : list TxOut) (total : Z) (m : string) (css : Z)
    (d : TransactionDestination) (script : bytes) :
  prepare sd cd = Ok (outs, total, m, css) ->
  m = "" ->
  let ca := computedChange inputs outs total css in
  0 < ca -> IsDustAmount ca css DefaultRelayFeePerKb = false ->
  d ∈ cd -> PkScriptOf (Address d) = Some script ->
  MaxScriptElementSize < Z.of_nat (length script) ->
  construct tape inputs sd cd = Err ScriptTooLarge.
Proof.
  intros Hp -> ca Hca Hnd Hin Hs Hbig.
  rewrite (construct_from_prepare _ _ _ _ _ _ _ _ Hp).
  apply prepare_ok_inv in Hp as (m0 & _ & _ & Hsize).
  unfold activeChangeScriptSize in Hsize.
  rewrite bool_decide_eq_false_2 in Hsize by (intros Hne; apply Hne; reflexivity).
  apply scriptSizeLoop_ok in Hsize as (_ & _ & Hle).
  specialize (Hle d script Hin Hs).
  unfold finish. fold ca.
  assert ((ca <? 0) = false) as -> by (apply Z.ltb_ge; lia).
  assert ((ca =? 0) = false) as -> by (apply Z.eqb_neq; lia).
  rewrite Hnd. cbn [negb andb].
  assert ((MaxScriptElementSize <? css) = true) as -> by (apply Z.ltb_lt; lia).
  reflexivity.
Qed.

(** C7, as amended: in explicit-change mode with a positive, non-dust
    computed change and a summed change script size within the maximum
    script element size, the call returns a transaction whenever the
    stated change amounts total at most the computed change: it carries
    one change output per change destination at the stated amount, and the
    unallocated change goes to the fee.  It fails with
    ChangeAllocationExceedsAvailable exactly when the total is above the
    computed change. *)
Theorem explicit_change_allocation (tape : Tape) (inputs : list TxIn)
    (sd cd : list TransactionDestination)
    (outs : list TxOut) (total : Z) (m : string) (css : Z) :
  prepare sd cd = Ok (outs, total, m, css) ->
  m = "" ->
  let ca := computedChange inputs outs total css in
  0 < ca -> IsDustAmount ca css DefaultRelayFeePerKb = false ->
  css <= MaxScriptElementSize ->
  let allocated := wrap64 (sumAmounts cd) in
  (allocated <= ca ->
     exists tx cs,
       construct tape inputs sd cd = Ok tx /\
       Forall2 changeOutputOf cd cs /\
       TxOuts (Tx tx) ≡ₚ outs ++ cs /\
       wrap64 (TotalInput tx - sumValues (TxOuts (Tx tx)))
         = wrap64 (feeWithChange inputs outs css + (ca - sumAmounts cd))) /\
  (ca < allocated ->
     construct tape inputs sd cd = Err (ChangeAllocationExceedsAvailable allocated ca)).
Proof.
  intros Hp -> ca Hca Hnd Hsize allocated.
  rewrite (construct_from_prepare _ _ _ _ _ _ _ _ Hp).
  apply prepare_ok_inv in Hp as (m0 & Hparse & _ & Hactive).
  pose proof (parse_total _ _ _ _ Hparse) as Htotal.
  pose proof (effective_destinations_decode _ _ _ ca Hactive) as Hdecode.
  destruct (changeLoop_runs tape _ 0%nat outs 0 Hdecode) as (outs' & tot & Hloop).
  assert (effectiveChangeDestinations "" ca cd = cd) as Heff.
  { unfold effectiveChangeDestinations.
    rewrite bool_decide_eq_false_2 by (intros Hne; apply Hne; reflexivity).
    reflexivity. }
  rewrite Heff in Hloop.
  pose proof (changeLoop_total_exact _ _ _ _ _ _ Hloop) as Htot.
  fold allocated in Htot. subst tot.
  assert (forall r,
    (if ca <? allocated
     then Err (ChangeAllocationExceedsAvailable allocated ca)
     else Ok (authored inputs outs' (totalInputAmountOf inputs)
                (sizeWithChange inputs outs css))) = r ->
    finish tape inputs cd outs total "" css = r) as Hfinish.
  { intros r <-. unfold finish. fold ca.
    assert ((ca <? 0) = false) as -> by (apply Z.ltb_ge; lia).
    assert ((ca =? 0) = false) as -> by (apply Z.eqb_neq; lia).
    rewrite Hnd. cbn [negb andb].
    assert ((MaxScriptElementSize <? css) = false) as -> by (apply Z.ltb_ge; lia).
    rewrite Heff, Hloop. reflexivity. }
  split.
  - intros Hle. apply Z.ltb_ge in Hle.
    apply changeLoop_ok in Hloop as (cs & Hcs & Hperm & _ & _).
    eexists _, cs. split; [apply Hfinish; rewrite Hle; reflexivity|].
    cbn [authored Tx TxOuts TotalInput].
    split; [exact Hcs|]. split; [exact Hperm|].
    rewrite (sumValues_perm _ _ Hperm), sumValues_app, (changeOutputOf_sum _ _ Hcs).
    unfold ca, computedChange, changeAmountOf. rewrite Htotal. wrap_eq.
  - intros Hlt. apply Z.ltb_lt in Hlt. apply Hfinish. rewrite Hlt. reflexivity.
Qed.

(** ** Placement of change outputs *)

Lemma finish_materialized (tape : Tape) (inputs : list TxIn)
    (cd : list TransactionDestination)
    (outs : list TxOut) (total : Z) (m : string) (css : Z)
    (outs' : list TxOut) (tot : Z) :
  let ca := computedChange inputs outs total css in
  0 <= ca -> ca <> 0 -> IsDustAmount ca css DefaultRelayFeePerKb = false ->
  css <= MaxScriptElementSize ->
  changeLoop tape 0 (effectiveChangeDestinations m ca cd) outs 0 = Ok (outs', tot) ->
  tot <= ca ->
  finish tape inputs cd outs total m css =
  Ok (authored inputs outs' (totalInputAmountOf inputs) (sizeWithChange inputs outs css)).
Proof.
  intros ca Hca Hnz Hnd Hsize Hloop Htot. unfold finish. fold ca.
  assert ((ca <? 0) = false) as -> by (apply Z.ltb_ge; lia).
  assert ((ca =? 0) = false) as -> by (apply Z.eqb_neq; lia).
  rewrite Hnd. cbn [negb andb].
  assert ((MaxScriptElementSize <? css) = false) as -> by (apply Z.ltb_ge; lia).
  rewrite Hloop. cbn [bind].
  assert ((ca <? tot) = false) as -> by (apply Z.ltb_ge; lia).
  reflexivity.
Qed.

(** On the zero tape the last change output ends at the front. *)
Lemma changeLoop_zeroTape (cds : list TransactionDestination)
    (dlast : TransactionDestination) (c : TxOut) (k : nat)
    (outs : list TxOut) (t : Z) (outs' : list TxOut) (tot : Z) :
  changeOutputOf dlast c ->
  changeLoop zeroTape k (cds ++ [dlast]) outs t = Ok (outs', tot) ->
  outs' !! 0%nat = Some c.
Proof.
  intros Hc. revert k outs t.
  induction cds as [|d cds IH]; intros k outs t; simpl.
  - rewrite Hc. intros [= <- _].
    unfold RandomizeOutputPosition, Int31n, zeroTape. rewrite Z.mod_0_l.
    2:{ rewrite length_app. simpl. lia. }
    apply swapOutputs_lookup_r.
    + rewrite length_app. simpl. lia.
    + rewrite length_app. simpl.
      replace (length outs + 1 - 1)%nat with (length outs + 0)%nat by lia.
      rewrite lookup_app_r by lia.
      replace (length outs + 0 - length outs)%nat with 0%nat by lia. reflexivity.
  - destruct (makeTxOutput _ _); [apply IH | discriminate].
Qed.

(** On the stay tape every change output remains where it was appended. *)
Lemma changeLoop_stayTape (base : nat) (cds : list TransactionDestination)
    (k : nat) (outs : list TxOut) (t : Z) (outs' : list TxOut) (tot : Z) :
  length outs = (base + k)%nat ->
  changeLoop (stayTape base) k cds outs t = Ok (outs', tot) ->
  exists cs, Forall2 changeOutputOf cds cs /\ outs' = outs ++ cs.
Proof.
  revert k outs t. induction cds as [|d cds IH]; intros k outs t Hlen; simpl.
  - intros [= <- _]. exists []. rewrite app_nil_r. split; [constructor | reflexivity].
  - destruct (makeTxOutput _ _) as [c|] eqn:Hc; [|discriminate].
    unfold RandomizeOutputPosition, Int31n, stayTape.
    rewrite length_app. cbn [length]. rewrite <- Hlen.
    replace (Z.of_nat (length outs) mod Z.of_nat (length outs + 1))
      with (Z.of_nat (length outs)) by (rewrite Z.mod_small; lia).
    rewrite Nat2Z.id.
    replace (length outs + 1 - 1)%nat with (length outs) by lia.
    rewrite swapOutputs_same. intros H.
    apply IH in H as (cs & Hcs & ->); [|rewrite length_app; simpl; lia].
    exists (c :: cs). rewrite <- app_assoc.
    split; [constructor; assumption | reflexivity].
Qed.

(** C10: when a call returns a transaction with a change output next to at
    least one payment output, the position of the change output depends on
    the random draws: on the zero tape the same request returns the last
    change output at index 0, on the stay tape it returns the payment
    outputs first and that change output at the last index, which is not
    index 0. *)
Theorem change_position_depends_on_tape (tape : Tape) (inputs : list TxIn)
    (sd cd : list TransactionDestination)
    (outs : list TxOut) (total : Z) (m : string) (css : Z) (tx : AuthoredTx) :
  prepare sd cd = Ok (outs, total, m, css) ->
  construct tape inputs sd cd = Ok tx ->
  outs <> [] ->
  (length outs < length (TxOuts (Tx tx)))%nat ->
  let ca := computedChange inputs outs total css in
  exists tx1 tx2 d c cs,
    construct zeroTape inputs sd cd = Ok tx1 /\
    construct (stayTape (length outs)) inputs sd cd = Ok tx2 /\
    last (effectiveChangeDestinations m ca cd) = Some d /\
    changeOutputOf d c /\
    TxOuts (Tx tx1) !! 0%nat = Some c /\
    TxOuts (Tx tx2) = outs ++ cs ++ [c] /\
    TxOuts (Tx tx2) !! (length (TxOuts (Tx tx2)) - 1)%nat = Some c /\
    (length (TxOuts (Tx tx2)) - 1)%nat <> 0%nat.
Proof.
  intros Hp Hc Hne Hlen ca.
  rewrite !(construct_from_prepare _ _ _ _ _ _ _ _ Hp).
  rewrite (construct_from_prepare _ _ _ _ _ _ _ _ Hp) in Hc.
  pose proof Hp as Hinv. apply prepare_ok_inv in Hinv as (m0 & _ & _ & Hactive).
  pose proof (effective_destinations_decode _ _ _ ca Hactive) as Hdecode.
  apply finish_ok_inv in Hc as [Hca Hcases]. fold ca in Hca, Hcases.
  destruct Hcases as [(Hnz & Hnd & Hsize & outs' & tot & Hloop & Htot & ->)|(_ & ->)];
    cbn [authored Tx TxOuts] in Hlen; [|lia].
  pose proof (changeLoop_total_exact _ _ _ _ _ _ Hloop) as Hexact.
  apply changeLoop_ok in Hloop as (cs0 & Hcs0 & Hperm & _ & _).
  apply Permutation_length in Hperm. rewrite length_app in Hperm.
  apply Forall2_length in Hcs0.
  destruct (exists_last (l := effectiveChangeDestinations m ca cd))
    as (eff & dlast & Heff).
  { intros Hnil. rewrite Hnil in Hcs0. simpl in Hcs0. lia. }
  rewrite Heff in Hdecode, Hexact.
  destruct (changeLoop_runs zeroTape _ 0%nat outs 0 Hdecode) as (o1 & tot1 & Hloop1).
  destruct (changeLoop_runs (stayTape (length outs)) _ 0%nat outs 0 Hdecode)
    as (o2 & tot2 & Hloop2).
  pose proof (changeLoop_total_exact _ _ _ _ _ _ Hloop1) as Hexact1.
  pose proof (changeLoop_total_exact _ _ _ _ _ _ Hloop2) as Hexact2.
  assert (length outs = (length outs + 0)%nat) as Hbase by lia.
  destruct (changeLoop_stayTape _ _ _ _ _ _ _ Hbase Hloop2) as (cs & Hcs & ->).
  apply Forall2_app_inv_l in Hcs as (cs' & clast & Hcs' & Hlast & ->).
  apply Forall2_cons_inv_l in Hlast as (c & cnil & Hdc & Hnil & ->).
  apply Forall2_nil_inv_l in Hnil as ->.
  pose proof (changeLoop_zeroTape _ _ _ _ _ _ _ _ Hdc Hloop1) as Hfront.
  exists (authored inputs o1 (totalInputAmountOf inputs) (sizeWithChange inputs outs css)),
         (authored inputs (outs ++ cs' ++ [c]) (totalInputAmountOf inputs)
            (sizeWithChange inputs outs css)),
         dlast, c, cs'.
  cbn [authored Tx TxOuts].
  split; [apply (finish_materialized _ _ _ _ _ _ _ _ tot1); fold ca; try assumption;
          [rewrite Heff; exact Hloop1 | lia]|].
  split; [apply (finish_materialized _ _ _ _ _ _ _ _ tot2); fold ca; try assumption;
          [rewrite Heff; exact Hloop2 | lia]|].
  split; [rewrite Heff; apply last_snoc|].
  split; [exact Hdc|]. split; [exact Hfront|]. split; [reflexivity|].
  split.
  - rewrite app_assoc, length_app. simpl.
    replace (length (outs ++ cs') + 1 - 1)%nat with (length (outs ++ cs') + 0)%nat by lia.
    rewrite lookup_app_r by lia.
    replace (length (outs ++ cs') + 0 - length (outs ++ cs'))%nat with 0%nat by lia.
    reflexivity.
  - rewrite !length_app. simpl. destruct outs; [contradiction | simpl; lia].
Qed.

(** ** Further properties of the change script sizes *)

Lemma scriptSizeLoop_sum (cds : list TransactionDestination) (scripts : list bytes)
    (acc : Z) :
  Forall2 (fun d s => PkScriptOf (Address d) = Some s) cds scripts ->
  scriptSizeLoop cds acc = Ok (acc + totalScriptSize scripts).
Proof.
  intros H. revert acc. induction H as [|d s cds scripts Hd _ IH]; intros acc; simpl.
  - f_equal. lia.
  - unfold calculateChangeScriptSize, changeSourceScriptSize. rewrite Hd. cbn [bind].
    rewrite IH. f_equal. lia.
Qed.

Lemma scriptSizeLoop_scripts (cds : list TransactionDestination) (acc css : Z) :
  scriptSizeLoop cds acc = Ok css ->
  exists scripts,
    Forall2 (fun d s => PkScriptOf (Address d) = Some s) cds scripts /\
    css = acc + totalScriptSize scripts.
Proof.
  revert acc. induction cds as [|d cds IH]; intros acc; simpl.
  - intros [= <-]. exists []. split; [constructor | simpl; lia].
  - unfold calculateChangeScriptSize, changeSourceScriptSize.
    destruct (PkScriptOf (Address d)) as [s|] eqn:Hs; cbn [bind]; [|discriminate].
    intros H. apply IH in H as (scripts & Hall & ->).
    exists (s :: scripts). split; [constructor; assumption | simpl; lia].
Qed.

Lemma scriptSizeLoop_error (cds : list TransactionDestination) (acc : Z)
    (e : AuthoringError) :
  scriptSizeLoop cds acc = Err e ->
  e = ChangeAddressError /\ Exists (fun d => PkScriptOf (Address d) = None) cds.
Proof.
  revert acc. induction cds as [|d cds IH]; intros acc; simpl; [discriminate|].
  unfold calculateChangeScriptSize, changeSourceScriptSize.
  destruct (PkScriptOf (Address d)) as [s|] eqn:Hs; cbn [bind].
  - intros H. apply IH in H as [-> Hex]. split; [reflexivity | right; assumption].
  - intros [= <-]. split; [reflexivity | left; assumption].
Qed.

(** X1: The summed change script size is the total length of the locking
    scripts of all change destinations (0 for no destination); the call
    fails, with a change address error and nothing else, exactly when some
    destination's address has no locking script. *)
Theorem multiple_change_script_size (cds : list TransactionDestination) :
  (forall css,
     multipleScriptSize cds = Ok css <->
     exists scripts,
       Forall2 (fun d s => PkScriptOf (Address d) = Some s) cds scripts /\
       css = totalScriptSize scripts) /\
  (forall e,
     multipleScriptSize cds = Err e <->
     e = ChangeAddressError /\ Exists (fun d => PkScriptOf (Address d) = None) cds).
Proof.
  unfold calculateMultipleChangeScriptSize. split.
  - intros css. split.
    + intros H. apply scriptSizeLoop_scripts in H as (scripts & Hall & ->).
      exists scripts. split; [assumption | lia].
    + intros (scripts & Hall & ->). rewrite (scriptSizeLoop_sum _ _ _ Hall).
      f_equal.
  - intros e. split; [apply scriptSizeLoop_error|].
    intros [-> Hex].
    destruct (scriptSizeLoop cds 0) as [css|e] eqn:Hloop.
    + apply scriptSizeLoop_ok in Hloop as (Hall & _ & _).
      apply Exists_exists in Hex as (d & Hd & Hnone).
      rewrite Forall_forall in Hall. destruct (Hall d Hd) as [s Hs]. congruence.
    + apply scriptSizeLoop_error in Hloop as [-> _]. reflexivity.
Qed.

(** ** Further properties of the destination parser *)

Lemma payments_cons (d : TransactionDestination) (ds : list TransactionDestination) :
  payments (d :: ds) = if SendMax d then payments ds else d :: payments ds.
Proof.
  unfold payments. rewrite filter_cons.
  destruct (SendMax d); destruct (decide _); congruence.
Qed.

Lemma maxRecipients_cons (d : TransactionDestination) (ds : list TransactionDestination) :
  maxRecipients (d :: ds) = if SendMax d then d :: maxRecipients ds else maxRecipients ds.
Proof.
  unfold maxRecipients. rewrite filter_cons.
  destruct (SendMax d); destruct (decide _); congruence.
Qed.

(** What the loop appends: one output per payment, in order. *)
Lemma parseLoop_payments (ds : list TransactionDestination)
    (o o' : list TxOut) (t t' : Z) (m m' : string) :
  parseLoop ds o t m = Ok (o', t', m') ->
  exists new,
    o' = o ++ new /\
    Forall2 (fun d out => 0 < AtomAmount d <= MaxAmount /\
                          makeTxOutput (Address d) (AtomAmount d) = Some out)
            (payments ds) new.
Proof.
  revert o t m. induction ds as [|d ds IH]; intros o t m; simpl.
  - intros [= <- <- <-]. exists []. rewrite app_nil_r. split; [reflexivity | constructor].
  - rewrite payments_cons.
    destruct (SendMax d) eqn:Hd; cbn [negb andb].
    + destruct (bool_decide (m ≠ "")); [discriminate|]. apply IH.
    + destruct (AtomAmount d <=? 0) eqn:Hlow; [discriminate|].
      destruct (MaxAmount <? AtomAmount d) eqn:Hhigh; [discriminate|]. cbn [orb].
      apply Z.leb_gt in Hlow. apply Z.ltb_ge in Hhigh.
      destruct (makeTxOutput _ _) as [out|] eqn:Hout; [|discriminate].
      intros H. apply IH in H as (new & -> & Hall).
      exists (out :: new). rewrite <- app_assoc. split; [reflexivity|].
      constructor; [|assumption]. split; [lia | assumption].
Qed.

(** X2: A successful parse returns exactly one output per destination not
    marked SendMax, in the order of the destinations; each carries the
    destination's amount, which lies in (0, MaxAmount], and the locking
    script of its address. *)
Theorem parse_outputs_in_order (ds : list TransactionDestination)
    (outs : list TxOut) (total : Z) (m : string) :
  parse ds = Ok (outs, total, m) ->
  Forall2 (fun d out => 0 < AtomAmount d <= MaxAmount /\
                        Value out = AtomAmount d /\
                        PkScriptOf (Address d) = Some (PkScript out))
          (payments ds) outs.
Proof.
  intros H. apply parseLoop_payments in H as (new & -> & Hall). simpl.
  eapply Forall2_impl; [exact Hall|].
  intros d out [Hrange Hout]. split; [assumption|].
  unfold MakeTxOutput in Hout. destruct (PkScriptOf (Address d)); [|discriminate].
  injection Hout as <-. split; reflexivity.
Qed.

Lemma payments_sum_bounds (ds : list TransactionDestination) (outs : list TxOut) :
  Forall2 (fun d out => 0 < AtomAmount d <= MaxAmount /\
                        makeTxOutput (Address d) (AtomAmount d) = Some out) ds outs ->
  Z.of_nat (length outs) <= sumValues outs <= Z.of_nat (length outs) * MaxAmount.
Proof.
  induction 1 as [|d out ds outs [Hrange Hout] _ IH]; simpl; [lia|].
  rewrite (MakeTxOutput_value _ _ _ Hout). lia.
Qed.

(** X3: When the number of payments times MaxAmount fits an int64, the total
    send amount of a successful parse is the exact sum of the output
    values, and it lies between the number of outputs and that number
    times MaxAmount. *)
Theorem parse_total_exact (ds : list TransactionDestination)
    (outs : list TxOut) (total : Z) (m : string) :
  parse ds = Ok (outs, total, m) ->
  Z.of_nat (length outs) * MaxAmount <= int64_max ->
  total = sumValues outs /\
  Z.of_nat (length outs) <= total <= Z.of_nat (length outs) * MaxAmount.
Proof.
  intros H Hfit. pose proof (parse_total _ _ _ _ H) as Htotal.
  apply parseLoop_payments in H as (new & -> & Hall). simpl in *.
  pose proof (payments_sum_bounds _ _ Hall) as Hbounds.
  rewrite wrap64_id in Htotal.
  - subst total. split; [reflexivity | exact Hbounds].
  - unfold in_int64, int64_min, int64_max in *. lia.
Qed.

(** With a recipient recorded, a successful run of the loop has seen no
    further SendMax destination. *)
Lemma parseLoop_recorded_no_max (ds : list TransactionDestination)
    (o o' : list TxOut) (t t' : Z) (m m' : string) :
  m <> "" -> parseLoop ds o t m = Ok (o', t', m') ->
  Forall (fun d => SendMax d = false) ds.
Proof.
  intros Hm. revert o t. induction ds as [|d ds IH]; intros o t; simpl; [constructor|].
  destruct (SendMax d) eqn:Hd; cbn [negb andb].
  - rewrite bool_decide_eq_true_2 by assumption. discriminate.
  - destruct (_ || _); [discriminate|].
    destruct (makeTxOutput _ _); [|discriminate].
    intros H. constructor; [assumption | eapply IH; eassumption].
Qed.

(** Where the returned recipient comes from. *)
Lemma parseLoop_recipient_source (ds : list TransactionDestination)
    (o o' : list TxOut) (t t' : Z) (m' : string) :
  parseLoop ds o t "" = Ok (o', t', m') ->
  (m' = "" /\ Forall (fun d => SendMax d = true -> Address d = "") ds) \/
  (m' <> "" /\
   exists pre d post,
     ds = pre ++ d :: post /\ SendMax d = true /\ Address d = m' /\
     Forall (fun d => SendMax d = true -> Address d = "") pre /\
     Forall (fun d => SendMax d = false) post).
Proof.
  revert o t. induction ds as [|d ds IH]; intros o t.
  - simpl. intros [= <- <- <-]. left. split; [reflexivity | constructor].
  - destruct (SendMax d) eqn:Hd.
    + rewrite parseLoop_first_max by assumption.
      destruct (decide (Address d = "")) as [Ha|Ha].
      * rewrite Ha. intros H. apply IH in H as [[-> Hall]|(Hm & pre & d' & post & -> & H1 & H2 & H3 & H4)].
        -- left. split; [reflexivity|]. constructor; [intros _; assumption | assumption].
        -- right. split; [assumption|]. exists (d :: pre), d', post.
           split; [reflexivity|]. split; [assumption|]. split; [assumption|].
           split; [constructor; [intros _; assumption | assumption] | assumption].
      * intros H. pose proof (parseLoop_recipient_kept _ _ _ _ _ _ _ Ha H) as ->.
        right. split; [assumption|]. exists [], d, ds.
        split; [reflexivity|]. split; [assumption|]. split; [reflexivity|].
        split; [constructor|]. eapply parseLoop_recorded_no_max; eassumption.
    + simpl. rewrite Hd. cbn [negb andb].
      destruct (_ || _); [discriminate|].
      destruct (makeTxOutput _ _); [|discriminate].
      intros H. apply IH in H as [[-> Hall]|(Hm & pre & d' & post & -> & H1 & H2 & H3 & H4)].
      * left. split; [reflexivity|]. constructor; [congruence | assumption].
      * right. split; [assumption|]. exists (d :: pre), d', post.
        split; [reflexivity|]. split; [assumption|]. split; [assumption|].
        split; [constructor; [congruence | assumption] | assumption].
Qed.

(** X4: The recipient a successful parse returns is empty only if every
    SendMax destination has an empty address; otherwise it is the address
    of a SendMax destination that is preceded only by SendMax destinations
    with an empty address and followed by no SendMax destination. *)
Theorem parse_recipient_source (ds : list TransactionDestination)
    (outs : list TxOut) (total : Z) (m : string) :
  parse ds = Ok (outs, total, m) ->
  (m = "" /\ Forall (fun d => SendMax d = true -> Address d = "") ds) \/
  (m <> "" /\
   exists pre d post,
     ds = pre ++ d :: post /\ SendMax d = true /\ Address d = m /\
     Forall (fun d => SendMax d = true -> Address d = "") pre /\
     Forall (fun d => SendMax d = false) post).
Proof. apply parseLoop_recipient_source. Qed.

(** The loop runs through valid payments whatever recipient is recorded. *)
Lemma parseLoop_runs_payments (ds : list TransactionDestination)
    (o : list TxOut) (t : Z) (m : string) :
  Forall (fun d => SendMax d = false /\ 0 < AtomAmount d <= MaxAmount /\
                   is_Some (PkScriptOf (Address d))) ds ->
  exists o' t', parseLoop ds o t m = Ok (o', t', m).
Proof.
  intros H. revert o t.
  induction H as [|d ds (Hd & Hrange & script & Hs) _ IH]; intros o t; simpl; [eauto|].
  rewrite Hd. cbn [negb andb].
  assert ((AtomAmount d <=? 0) = false) as -> by (apply Z.leb_gt; lia).
  assert ((MaxAmount <? AtomAmount d) = false) as -> by (apply Z.ltb_ge; lia).
  cbn [orb]. unfold MakeTxOutput. rewrite Hs. apply IH.
Qed.

Lemma parseLoop_runs (ds : list TransactionDestination) (o : list TxOut) (t : Z) :
  Forall (fun d => SendMax d = false ->
                   0 < AtomAmount d <= MaxAmount /\ is_Some (PkScriptOf (Address d))) ds ->
  (length (maxRecipients ds) <= 1)%nat ->
  exists o' t',
    parseLoop ds o t "" =
    Ok (o', t', from_option Address "" (head (maxRecipients ds))).
Proof.
  intros Hvalid. revert o t.
  induction Hvalid as [|d ds Hd Hvalid IH]; intros o t Hcount; [simpl; eauto|].
  rewrite maxRecipients_cons in *.
  destruct (SendMax d) eqn:Hmax.
  - rewrite parseLoop_first_max by assumption. simpl in *.
    assert (maxRecipients ds = []) as Hnone by (destruct (maxRecipients ds); [reflexivity | simpl in Hcount; lia]).
    apply parseLoop_runs_payments.
    rewrite Forall_forall in *. intros d' Hd'.
    assert (SendMax d' = false) as Hfalse.
    { destruct (SendMax d') eqn:Hd''; [|reflexivity].
      assert (d' ∈ maxRecipients ds) as Hin by (apply list_elem_of_filter; auto).
      rewrite Hnone in Hin. inversion Hin. }
    split; [assumption | auto].
  - destruct (Hd eq_refl) as (Hrange & script & Hs).
    simpl. rewrite Hmax. cbn [negb andb].
    assert ((AtomAmount d <=? 0) = false) as -> by (apply Z.leb_gt; lia).
    assert ((MaxAmount <? AtomAmount d) = false) as -> by (apply Z.ltb_ge; lia).
    cbn [orb]. unfold MakeTxOutput. rewrite Hs. apply IH. assumption.
Qed.

(** X5: Parsing succeeds whenever every destination not marked SendMax has an
    amount in (0, MaxAmount] and an address with a locking script, and at
    most one destination is marked SendMax; the recipient returned is the
    address of that destination, or empty when there is none. *)
Theorem parse_succeeds (ds : list TransactionDestination) :
  Forall (fun d => SendMax d = false ->
                   0 < AtomAmount d <= MaxAmount /\ is_Some (PkScriptOf (Address d))) ds ->
  (length (maxRecipients ds) <= 1)%nat ->
  exists outs total,
    parse ds = Ok (outs, total, from_option Address "" (head (maxRecipients ds))).
Proof. intros Hvalid Hcount. apply parseLoop_runs; assumption. Qed.

(** X6: A destination with a valid amount whose address has no locking script
    makes parsing fail; the error is the output construction error when
    the destinations before it parse without error. *)
Theorem parse_undecodable_address (pre post : list TransactionDestination)
    (d : TransactionDestination) :
  SendMax d = false -> 0 < AtomAmount d <= MaxAmount ->
  PkScriptOf (Address d) = None ->
  is_ok (parse (pre ++ d :: post)) = false /\
  (is_ok (parse pre) = true -> parse (pre ++ d :: post) = Err MakeTxOutputError).
Proof.
  intros Hd Hrange Hnone. rewrite parse_app.
  assert (forall o t m, parseLoop (d :: post) o t m = Err MakeTxOutputError) as Hstep.
  { intros o t m. simpl. rewrite Hd. cbn [negb andb].
    assert ((AtomAmount d <=? 0) = false) as -> by (apply Z.leb_gt; lia).
    assert ((MaxAmount <? AtomAmount d) = false) as -> by (apply Z.ltb_ge; lia).
    cbn [orb]. unfold MakeTxOutput. rewrite Hnone. reflexivity. }
  destruct (parse pre) as [[[o t] m]|e]; cbn [bind is_ok].
  - rewrite Hstep. split; [reflexivity | intros _; reflexivity].
  - split; [reflexivity | discriminate].
Qed.


(** ** Further properties of the author *)

Local Abbreviation constructWith :=
  (constructCustomTransaction MaxAmount MaxScriptElementSize DefaultRelayFeePerKb
     RedeemP2PKHSigScriptSize PkScriptOf EstimateSerializeSize FeeForSerializeSize
     IsDustAmount).


(** X8: Without a max-amount recipient and without explicit change
    destinations the wallet is asked for a change address, and its failure
    fails the call. *)
Theorem change_address_generation_failed (tape : Tape) (inputs : list TxIn)
    (sd : list TransactionDestination) (outs : list TxOut) (total : Z) :
  parse sd = Ok (outs, total, "") ->
  nextInternalAddress = None ->
  construct tape inputs sd [] = Err ChangeAddressGenerationFailed.
Proof.
  intros Hparse Hnone. unfold constructCustomTransaction. rewrite Hparse. cbn [bind].
  unfold resolveChangeRecipient. rewrite Hnone. reflexivity.
Qed.

(** X9: The wallet's change address plays no role when explicit change
    destinations are given, when a max-amount recipient is found, or when
    parsing fails: the result is the same whatever the wallet would
    answer. *)
Theorem change_address_not_requested (p1 p2 : option string) (tape : Tape)
    (inputs : list TxIn) (sd cd : list TransactionDestination) :
  cd <> [] \/ (forall outs total, parse sd <> Ok (outs, total, "")) ->
  constructWith p1 tape inputs sd cd = constructWith p2 tape inputs sd cd.
Proof.
  intros H. unfold constructCustomTransaction.
  destruct (parse sd) as [[[outs total] m0]|e]; cbn [bind]; [|reflexivity].
  assert (resolveChangeRecipient p1 m0 cd = resolveChangeRecipient p2 m0 cd) as ->;
    [|reflexivity].
  unfold resolveChangeRecipient.
  destruct (bool_decide (m0 ≠ "") && _); [reflexivity|].
  destruct (decide (m0 = "")) as [->|Hm].
  - destruct H as [Hcd|Hparse]; [|exfalso; eapply Hparse; reflexivity].
    rewrite (bool_decide_eq_false_2 (length cd = 0%nat)), andb_false_r; [reflexivity|].
    destruct cd; [contradiction | discriminate].
  - rewrite (bool_decide_eq_false_2 (m0 = "")) by assumption. reflexivity.
Qed.

Lemma changeOutputOf_functional (cds : list TransactionDestination)
    (cs cs' : list TxOut) :
  Forall2 changeOutputOf cds cs -> Forall2 changeOutputOf cds cs' -> cs = cs'.
Proof.
  intros H. revert cs'. induction H as [|d c cds cs Hc _ IH]; intros cs' H'.
  - apply Forall2_nil_inv_l in H'. congruence.
  - apply Forall2_cons_inv_l in H' as (c' & cs'' & Hc' & H' & ->).
    unfold changeOutputOf in *.
    f_equal; [congruence | apply IH; assumption].
Qed.

Lemma changeLoop_error (tape : Tape) (cds : list TransactionDestination) (k : nat)
    (outs : list TxOut) (t : Z) (e : AuthoringError) :
  changeLoop tape k cds outs t = Err e ->
  ~ Forall (fun d => is_Some (PkScriptOf (Address d))) cds.
Proof.
  intros Herr Hall.
  destruct (changeLoop_runs tape cds k outs t Hall) as (o & tot & Hok). congruence.
Qed.

Lemma changeLoop_error_kind (tape : Tape) (cds : list TransactionDestination) (k : nat)
    (outs : list TxOut) (t : Z) (e : AuthoringError) :
  changeLoop tape k cds outs t = Err e -> e = ChangeAddressError.
Proof.
  revert k outs t. induction cds as [|d cds IH]; intros k outs t; simpl; [discriminate|].
  destruct (makeTxOutput _ _); [apply IH | congruence].
Qed.

(** X10: The draws change nothing but the order of the outputs: the call fails
    with the same error on every tape, or returns on every tape a
    transaction with the same inputs, input total and size estimate and
    the same outputs up to their order. *)
Theorem randomness_only_reorders (tape1 tape2 : Tape) (inputs : list TxIn)
    (sd cd : list TransactionDestination) :
  match construct tape1 inputs sd cd, construct tape2 inputs sd cd with
  | Ok tx1, Ok tx2 =>
      TxOuts (Tx tx1) ≡ₚ TxOuts (Tx tx2) /\
      TxIns (Tx tx1) = TxIns (Tx tx2) /\
      TotalInput tx1 = TotalInput tx2 /\
      EstimatedSignedSerializeSize tx1 = EstimatedSignedSerializeSize tx2
  | Err e1, Err e2 => e1 = e2
  | _, _ => False
  end.
Proof.
  rewrite !construct_prepare.
  destruct (prepare sd cd) as [[[[outs total] m] css]|e]; cbn [bind]; [|reflexivity].
  unfold finish.
  destruct (_ <? 0); [reflexivity|].
  destruct (negb _ && negb _); [|repeat split; reflexivity].
  destruct (_ <? css); [reflexivity|].
  set (cds := effectiveChangeDestinations _ _ _).
  destruct (changeLoop tape1 0 cds outs 0) as [[o1 tot1]|e1] eqn:H1;
    destruct (changeLoop tape2 0 cds outs 0) as [[o2 tot2]|e2] eqn:H2; cbn [bind].
  - rewrite (changeLoop_total_exact _ _ _ _ _ _ H1),
            (changeLoop_total_exact _ _ _ _ _ _ H2).
    destruct (_ <? _); [reflexivity|].
    cbn [authored Tx TxOuts TxIns TotalInput EstimatedSignedSerializeSize].
    apply changeLoop_ok in H1 as (cs1 & Hcs1 & Hperm1 & _).
    apply changeLoop_ok in H2 as (cs2 & Hcs2 & Hperm2 & _).
    rewrite (changeOutputOf_functional _ _ _ Hcs1 Hcs2) in Hperm1.
    rewrite Hperm1, Hperm2. repeat split; reflexivity.
  - exfalso. apply changeLoop_error in H2. apply changeLoop_ok in H1 as (cs1 & Hcs1 & _).
    apply H2. eapply Forall2_Forall_l; [exact Hcs1|].
    apply Forall_forall. intros c _ d Hd. unfold changeOutputOf, MakeTxOutput in Hd.
    destruct (PkScriptOf (Address d)); [eauto | discriminate].
  - exfalso. apply changeLoop_error in H1. apply changeLoop_ok in H2 as (cs2 & Hcs2 & _).
    apply H1. eapply Forall2_Forall_l; [exact Hcs2|].
    apply Forall_forall. intros c _ d Hd. unfold changeOutputOf, MakeTxOutput in Hd.
    destruct (PkScriptOf (Address d)); [eauto | discriminate].
  - apply changeLoop_error_kind in H1, H2. congruence.
Qed.

(** X11: In single-recipient mode (max-amount recipient or wallet change
    address) with materialized change, the returned outputs are the
    payment outputs followed by one output that pays the whole computed
    change to the recipient, with that output exchanged with the one at
    the drawn position: the change output sits at index
    [draw mod (payments + 1)]. *)
Theorem single_change_placement (tape : Tape) (inputs : list TxIn)
    (sd cd : list TransactionDestination)
    (outs : list TxOut) (total : Z) (m : string) (css : Z) (tx : AuthoredTx) :
  prepare sd cd = Ok (outs, total, m, css) ->
  construct tape inputs sd cd = Ok tx ->
  m <> "" ->
  let ca := computedChange inputs outs total css in
  ca <> 0 -> IsDustAmount ca css DefaultRelayFeePerKb = false ->
  exists script,
    PkScriptOf m = Some script /\
    let c := {| Value := ca; PkScript := script |} in
    let r := Z.to_nat (tape 0%nat mod Z.of_nat (length outs + 1)) in
    TxOuts (Tx tx) = swapOutputs (outs ++ [c]) r (length outs) /\
    TxOuts (Tx tx) !! r = Some c /\
    length (TxOuts (Tx tx)) = S (length outs).
Proof.
  intros Hp Hc Hm ca Hnz Hnd.
  rewrite (construct_from_prepare _ _ _ _ _ _ _ _ Hp) in Hc.
  apply finish_ok_inv in Hc as [Hca Hcases]. fold ca in Hca, Hcases.
  destruct Hcases as [(_ & _ & _ & outs' & tot & Hloop & _ & ->)|([Hz|Hd] & _)];
    [|contradiction|congruence].
  unfold effectiveChangeDestinations in Hloop.
  rewrite bool_decide_eq_true_2 in Hloop by assumption.
  simpl in Hloop. unfold MakeTxOutput in Hloop.
  destruct (PkScriptOf m) as [script|]; [|discriminate].
  injection Hloop as <- _.
  exists script. split; [reflexivity|].
  cbn [authored Tx TxOuts]. unfold RandomizeOutputPosition, Int31n.
  rewrite length_app. cbn [length].
  replace (length outs + 1 - 1)%nat with (length outs) by lia.
  assert (0 <= tape 0%nat mod Z.of_nat (length outs + 1) < Z.of_nat (length outs + 1))
    as Hr by (apply Z.mod_pos_bound; lia).
  split; [reflexivity|]. split.
  - apply swapOutputs_lookup_r.
    + rewrite length_app. simpl. lia.
    + replace (length outs) with (length outs + 0)%nat at 1 by lia.
      rewrite lookup_app_r by lia.
      replace (length outs + 0 - length outs)%nat with 0%nat by lia. reflexivity.
  - rewrite (Permutation_length (swapOutputs_perm _ _ _)), length_app. simpl. lia.
Qed.

(** X12: Every payment output of a returned transaction has a positive value,
    and so has every change output provided the explicit change
    destinations, if any, state positive amounts. *)
Theorem outputs_positive (tape : Tape) (inputs : list TxIn)
    (sd cd : list TransactionDestination) (tx : AuthoredTx) :
  construct tape inputs sd cd = Ok tx ->
  Forall (fun d => 0 < AtomAmount d) cd ->
  Forall (fun o => 0 < Value o) (TxOuts (Tx tx)).
Proof.
  intros Hc Hcd.
  apply construct_ok_inv in Hc as (outs & total & m & css & Hp & Hf).
  apply prepare_ok_inv in Hp as (m0 & Hparse & _ & _).
  apply parseLoop_payments in Hparse as (new & Heq & Hpay). simpl in Heq. subst new.
  assert (Forall (fun o => 0 < Value o) outs) as Houts.
  { eapply Forall2_Forall_r; [exact Hpay|]. apply Forall_forall.
    intros d _ o [Hrange Ho]. rewrite (MakeTxOutput_value _ _ _ Ho). lia. }
  apply finish_ok_inv in Hf as [Hca Hcases].
  destruct Hcases as [(Hnz & _ & _ & outs' & tot & Hloop & _ & ->)|(_ & ->)];
    cbn [authored Tx TxOuts]; [|exact Houts].
  apply changeLoop_ok in Hloop as (cs & Hcs & Hperm & _).
  rewrite Hperm. apply Forall_app. split; [exact Houts|].
  eapply Forall2_Forall_r; [exact Hcs|].
  unfold effectiveChangeDestinations. destruct (bool_decide (m ≠ "")).
  - repeat constructor. intros o Ho. rewrite (MakeTxOutput_value _ _ _ Ho). simpl. lia.
  - eapply Forall_impl; [exact Hcd|].
    intros d Hd o Ho. rewrite (MakeTxOutput_value _ _ _ Ho). exact Hd.
Qed.

(** X13: Once the destinations parse, the change mode is valid and the change
    scripts are sized, the call returns a transaction exactly when the
    computed change is not negative and either is dropped (zero or dust)
    or the change script size is within the maximum and the amounts of
    the change destinations total at most the computed change. *)
Theorem author_succeeds_iff (tape : Tape) (inputs : list TxIn)
    (sd cd : list TransactionDestination)
    (outs : list TxOut) (total : Z) (m : string) (css : Z) :
  prepare sd cd = Ok (outs, total, m, css) ->
  let ca := computedChange inputs outs total css in
  is_ok (construct tape inputs sd cd) = true <->
  0 <= ca /\
  (ca = 0 \/ IsDustAmount ca css DefaultRelayFeePerKb = true \/
   (css <= MaxScriptElementSize /\
    wrap64 (sumAmounts (effectiveChangeDestinations m ca cd)) <= ca)).
Proof.
  intros Hp ca. rewrite (construct_from_prepare _ _ _ _ _ _ _ _ Hp).
  apply prepare_ok_inv in Hp as (m0 & _ & _ & Hactive).
  pose proof (effective_destinations_decode _ _ _ ca Hactive) as Hdecode.
  destruct (changeLoop_runs tape _ 0%nat outs 0 Hdecode) as (outs' & tot & Hloop).
  pose proof (changeLoop_total_exact _ _ _ _ _ _ Hloop) as Htot.
  unfold finish. fold ca. rewrite Hloop. cbn [bind].
  destruct (ca <? 0) eqn:Hneg; cbn [is_ok].
  { apply Z.ltb_lt in Hneg. split; [discriminate | lia]. }
  apply Z.ltb_ge in Hneg.
  destruct (ca =? 0) eqn:Hz; cbn [negb andb is_ok].
  { apply Z.eqb_eq in Hz. split; [auto | reflexivity]. }
  apply Z.eqb_neq in Hz.
  destruct (IsDustAmount ca css DefaultRelayFeePerKb) eqn:Hd; cbn [negb is_ok].
  { split; [auto | reflexivity]. }
  destruct (MaxScriptElementSize <? css) eqn:Hs; cbn [is_ok].
  { apply Z.ltb_lt in Hs. split; [discriminate|].
    intros (_ & [?|[?|[? _]]]); [contradiction | discriminate | lia]. }
  apply Z.ltb_ge in Hs. rewrite <- Htot.
  destruct (ca <? tot) eqn:Ht; cbn [is_ok].
  - apply Z.ltb_lt in Ht. split; [discriminate|].
    intros (_ & [?|[?|[_ ?]]]); [contradiction | discriminate | lia].
  - apply Z.ltb_ge in Ht. split; [auto 6 | reflexivity].
Qed.

Lemma inputScriptSizesOf_length (inputs inputs' : list TxIn) :
  length inputs = length inputs' -> sizesOf inputs = sizesOf inputs'.
Proof.
  unfold inputScriptSizesOf. revert inputs'.
  induction inputs as [|i inputs IH]; intros [|i' inputs'] H; simpl in *;
    try discriminate; [reflexivity|].
  f_equal. apply IH. lia.
Qed.

Lemma sumValueIn_perm (inputs inputs' : list TxIn) :
  inputs ≡ₚ inputs' -> sumValueIn inputs = sumValueIn inputs'.
Proof. induction 1; simpl; lia. Qed.

(** X14: The order of the inputs matters only for the input sequence of the
    result: on a reordering of the inputs the call fails with the same
    error, or returns a transaction with the same outputs, input total and
    size estimate. *)
Theorem input_order_irrelevant (tape : Tape) (inputs inputs' : list TxIn)
    (sd cd : list TransactionDestination) :
  inputs ≡ₚ inputs' ->
  match construct tape inputs sd cd, construct tape inputs' sd cd with
  | Ok tx, Ok tx' =>
      TxIns (Tx tx) = inputs /\ TxIns (Tx tx') = inputs' /\
      TxOuts (Tx tx) = TxOuts (Tx tx') /\
      TotalInput tx = TotalInput tx' /\
      EstimatedSignedSerializeSize tx = EstimatedSignedSerializeSize tx'
  | Err e, Err e' => e = e'
  | _, _ => False
  end.
Proof.
  intros Hperm. rewrite !construct_prepare.
  destruct (prepare sd cd) as [[[[outs total] m] css]|e]; cbn [bind]; [|reflexivity].
  unfold finish, computedChange, feeWithChange, sizeWithChange.
  rewrite <- (inputScriptSizesOf_length inputs inputs' (Permutation_length Hperm)).
  rewrite (totalInputAmountOf_sum inputs'), <- (sumValueIn_perm _ _ Hperm),
          <- (totalInputAmountOf_sum inputs).
  destruct (_ <? 0); [reflexivity|].
  destruct (negb _ && negb _); [|repeat split; reflexivity].
  destruct (_ <? css); [reflexivity|].
  destruct (changeLoop _ _ _ _ _) as [[o tot]|e]; cbn [bind]; [|reflexivity].
  destruct (_ <? tot); [reflexivity | repeat split; reflexivity].
Qed.

(** X15: When no amount overflows, a returned transaction leaves at least the
    fee required for the size estimated with change: the input total
    minus the output values is never below that fee. *)
Theorem fee_never_below_required (tape : Tape) (inputs : list TxIn)
    (sd cd : list TransactionDestination)
    (outs : list TxOut) (total : Z) (m : string) (css : Z) (tx : AuthoredTx) :
  prepare sd cd = Ok (outs, total, m, css) ->
  construct tape inputs sd cd = Ok tx ->
  let fee := feeWithChange inputs outs css in
  in_int64 (sumValues outs) ->
  in_int64 (totalInputAmountOf inputs - sumValues outs - fee) ->
  in_int64 (sumAmounts cd) ->
  fee <= TotalInput tx - sumValues (TxOuts (Tx tx)).
Proof.
  intros Hp Hc fee Houts Hchange Hcd.
  rewrite (construct_from_prepare _ _ _ _ _ _ _ _ Hp) in Hc.
  apply prepare_ok_inv in Hp as (m0 & Hparse & _ & _).
  pose proof (parse_total _ _ _ _ Hparse) as Htotal.
  rewrite (wrap64_id _ Houts) in Htotal.
  apply finish_ok_inv in Hc as [Hca Hcases].
  assert (computedChange inputs outs total css
          = totalInputAmountOf inputs - sumValues outs - fee) as Hexact.
  { rewrite <- (wrap64_id _ Hchange).
    unfold computedChange, changeAmountOf. fold fee. rewrite Htotal.
    unfold sub64 at 1. wrap_eq. }
  rewrite Hexact in Hca, Hcases.
  destruct Hcases as [(_ & _ & _ & outs' & tot & Hloop & Htot & ->)|(_ & ->)];
    cbn [authored Tx TxOuts TotalInput]; [|lia].
  pose proof (changeLoop_total_exact _ _ _ _ _ _ Hloop) as Hsum.
  apply changeLoop_ok in Hloop as (cs & Hcs & Hperm & _).
  rewrite (sumValues_perm _ _ Hperm), sumValues_app, (changeOutputOf_sum _ _ Hcs).
  unfold effectiveChangeDestinations in Hsum |- *.
  destruct (bool_decide (m ≠ "")).
  - cbn [sumAmounts foldr AtomAmount]. lia.
  - rewrite (wrap64_id _ Hcd) in Hsum. lia.
Qed.

End AuthorProperties.

(** * Properties of the address queries *)

Section AddressBookProperties.

Import AddressBook.

Variable DcrAddress : Type.
Variable DecodeError : Type.
Variable errorText : DecodeError -> string.
Variable DecodeForNetwork : string -> DecodeError + DcrAddress.
Variable DecodeAddress : string -> DecodeError + DcrAddress.
Variable WalletError : Type.
Variable walletHaveAddress : DcrAddress -> WalletError + bool.
Variable KnownAddress : Type.
Variable walletAddressInfo : DcrAddress -> option KnownAddress.
Variable Account : KnownAddress -> Z.
Variable walletAccountName : Z -> string.

Local Abbreviation IsAddressValid := (IsAddressValid DcrAddress DecodeError DecodeForNetwork).
Local Abbreviation HaveAddress :=
  (HaveAddress DcrAddress DecodeError DecodeForNetwork WalletError walletHaveAddress).
Local Abbreviation AccountOfAddress :=
  (AccountOfAddress DcrAddress DecodeError errorText DecodeAddress KnownAddress
     walletAddressInfo Account walletAccountName).
Local Abbreviation AddressInfoOf :=
  (AddressInfoOf DcrAddress DecodeError DecodeAddress KnownAddress walletAddressInfo
     Account walletAccountName).

(** X16: An address the wallet is reported to have is valid for the network:
    it decodes, and the wallet's own lookup answered yes without error. *)
Theorem have_address_is_valid (address : string) :
  HaveAddress address = true ->
  IsAddressValid address = true /\
  exists addr, DecodeForNetwork address = inr addr /\ walletHaveAddress addr = inr true.
Proof.
  unfold HaveAddress, IsAddressValid.
  destruct (DecodeForNetwork address) as [err|addr]; [discriminate|].
  destruct (walletHaveAddress addr) as [err|have] eqn:Hhave; [discriminate|].
  intros ->. split; [reflexivity | eauto].
Qed.

(** X17: [AccountOfAddress] against [AddressInfo] on the same address: when the
    address does not decode it returns the text of the decoding error as
    if it were an account name; when the address is the wallet's it returns
    the account name [AddressInfo] reports; and it panics exactly for the
    addresses that decode but are not the wallet's, those for which
    [AddressInfo] returns IsMine false with account number 0 and an empty
    account name. *)
Theorem account_of_address_against_info (address : string) :
  (forall err, AddressInfoOf address = inl err ->
               AccountOfAddress address = Returns (errorText err)) /\
  (forall info, AddressInfoOf address = inr info -> IsMine info = true ->
                AccountOfAddress address = Returns (AccountName info)) /\
  (AccountOfAddress address = Panics <->
   exists info, AddressInfoOf address = inr info /\ IsMine info = false /\
                Address info = address /\ AccountNumber info = 0 /\
                AccountName info = "").
Proof.
  unfold AccountOfAddress, AddressInfoOf.
  destruct (DecodeAddress address) as [err|addr].
  - split; [intros ? [= <-]; reflexivity|]. split; [discriminate|].
    split; [discriminate | intros (? & [=] & _)].
  - destruct (walletAddressInfo addr) as [info|].
    + split; [discriminate|]. split; [intros ? [= <-] _; reflexivity|].
      split; [discriminate | intros (? & [= <-] & [=] & _)].
    + split; [discriminate|]. split; [intros ? [= <-]; discriminate|].
      split; [|reflexivity]. intros _. eexists. repeat split; reflexivity.
Qed.

End AddressBookProperties.

(** * Properties of the wallet registry *)

Section WalletsProperties.

Import Wallets.

Variable LibWallet : Type.
Variable WalletOpened : LibWallet -> bool.
Variable WalletSeed : LibWallet -> string.
Variable synced : LibWallet -> bool.
Variable WalletID : LibWallet -> Z.
Variable DbError : Type.
Variable dbOneWalletName : string -> DbLookup DbError.
Variable Itoa : Z -> string.

Local Abbreviation GetBackupsNeeded := (GetBackupsNeeded LibWallet WalletOpened WalletSeed).
Local Abbreviation OpenedWalletsRaw := (OpenedWalletsRaw LibWallet WalletOpened WalletID).
Local Abbreviation OpenedWalletsCount := (OpenedWalletsCount LibWallet WalletOpened WalletID).
Local Abbreviation SyncedWalletCount := (SyncedWalletCount LibWallet WalletOpened synced).
Local Abbreviation WalletNameExists := (WalletNameExists DbError dbOneWalletName).

Lemma wrap32_small (x : Z) : 0 <= x < 2 ^ 31 -> wrap32 x = x.
Proof. intros H. unfold wrap32. rewrite Z.mod_small by lia. lia. Qed.

Lemma wrap32_succ (x : Z) : wrap32 (wrap32 x + 1) = wrap32 (x + 1).
Proof.
  unfold wrap32.
  replace ((x + 2 ^ 31) mod 2 ^ 32 - 2 ^ 31 + 1 + 2 ^ 31)
    with ((x + 2 ^ 31) mod 2 ^ 32 + 1) by lia.
  replace (x + 1 + 2 ^ 31) with ((x + 2 ^ 31) + 1) by lia.
  rewrite (Zplus_mod ((x + 2 ^ 31) mod 2 ^ 32)), Zmod_mod, <- Zplus_mod. reflexivity.
Qed.

(** The number of wallets of a list that pass a test. *)
Local Abbreviation passing test visited :=
  (length (filter (fun w : LibWallet => test w = true) visited)).

Lemma countWallets_from (test : LibWallet -> bool) (visited : list LibWallet) (a : Z) :
  fold_left (fun count w => if test w then wrap32 (count + 1) else count)
            visited (wrap32 a)
  = wrap32 (a + Z.of_nat (passing test visited)).
Proof.
  revert a. induction visited as [|w visited IH]; intros a; simpl.
  - f_equal. lia.
  - rewrite filter_cons. destruct (test w) eqn:Hw.
    + rewrite decide_True by reflexivity. rewrite wrap32_succ, IH. f_equal. simpl. lia.
    + rewrite decide_False by discriminate. apply IH.
Qed.

Lemma countWallets_passing (test : LibWallet -> bool) (visited : list LibWallet) :
  countWallets LibWallet test visited = wrap32 (Z.of_nat (passing test visited)).
Proof.
  unfold countWallets. rewrite <- (wrap32_small 0) at 1 by lia.
  rewrite countWallets_from. f_equal.
Qed.

Lemma OpenedWalletsRaw_from (visited : list LibWallet) (acc : list Z) :
  fold_left (fun wallets w => if WalletOpened w then wallets ++ [WalletID w] else wallets)
            visited acc
  = acc ++ (WalletID <$> filter (fun w => WalletOpened w = true) visited).
Proof.
  revert acc. induction visited as [|w visited IH]; intros acc; simpl.
  - rewrite app_nil_r. reflexivity.
  - rewrite filter_cons. destruct (WalletOpened w) eqn:Hw.
    + rewrite decide_True by reflexivity. rewrite IH, <- app_assoc. reflexivity.
    + rewrite decide_False by discriminate. apply IH.
Qed.

Lemma OpenedWalletsRaw_length (visited : list LibWallet) :
  length (OpenedWalletsRaw visited) = passing WalletOpened visited.
Proof.
  unfold OpenedWalletsRaw. rewrite OpenedWalletsRaw_from. simpl.
  apply length_fmap.
Qed.

Lemma passing_le (test1 test2 : LibWallet -> bool) (visited : list LibWallet) :
  (forall w, test1 w = true -> test2 w = true) ->
  (passing test1 visited <= passing test2 visited)%nat.
Proof.
  intros Himp. induction visited as [|w visited IH]; [reflexivity|].
  rewrite !filter_cons.
  destruct (decide (test1 w = true)) as [H1|H1].
  - rewrite decide_True by auto. simpl. lia.
  - destruct (decide (test2 w = true)); simpl; lia.
Qed.

Lemma passing_le_length (test : LibWallet -> bool) (visited : list LibWallet) :
  (passing test visited <= length visited)%nat.
Proof. apply length_filter. Qed.

Lemma visits_length (wallets : gmap Z LibWallet) (visited : list LibWallet) :
  visits LibWallet wallets visited -> length visited = size wallets.
Proof.
  intros H. rewrite (Permutation_length H), length_fmap, length_map_to_list.
  reflexivity.
Qed.

Lemma passing_visits (test : LibWallet -> bool) (wallets : gmap Z LibWallet)
    (v1 v2 : list LibWallet) :
  visits LibWallet wallets v1 -> visits LibWallet wallets v2 ->
  passing test v1 = passing test v2.
Proof.
  unfold visits. intros H1 H2. apply Permutation_length.
  apply filter_Permutation. rewrite H1, H2. reflexivity.
Qed.

(** X18: With fewer than 2^31 wallets loaded, in whatever order the loops visit
    them: the wallets needing a backup and the synced wallets are counted
    among the opened ones, and the opened ones among the loaded ones. *)
Theorem wallet_counts_ordered (wallets : gmap Z LibWallet)
    (v1 v2 v3 : list LibWallet) :
  visits LibWallet wallets v1 -> visits LibWallet wallets v2 ->
  visits LibWallet wallets v3 ->
  Z.of_nat (size wallets) < 2 ^ 31 ->
  0 <= GetBackupsNeeded v1 <= OpenedWalletsCount v2 /\
  0 <= SyncedWalletCount v3 <= OpenedWalletsCount v2 /\
  OpenedWalletsCount v2 <= LoadedWalletsCount LibWallet wallets.
Proof.
  intros H1 H2 H3 Hsize.
  unfold GetBackupsNeeded, SyncedWalletCount, OpenedWalletsCount, LoadedWalletsCount.
  rewrite !countWallets_passing, OpenedWalletsRaw_length.
  pose proof (visits_length _ _ H2) as Hlen.
  pose proof (passing_le_length WalletOpened v2) as Hopened.
  rewrite (passing_visits _ _ _ _ H1 H2), (passing_visits _ _ _ _ H3 H2).
  assert (passing (fun w => WalletOpened w && bool_decide (WalletSeed w ≠ "")) v2
          <= passing WalletOpened v2)%nat as Hbackup.
  { apply passing_le. intros w Hw. apply andb_true_iff in Hw as [Hw _]. exact Hw. }
  assert (passing (fun w => WalletOpened w && synced w) v2
          <= passing WalletOpened v2)%nat as Hsynced.
  { apply passing_le. intros w Hw. apply andb_true_iff in Hw as [Hw _]. exact Hw. }
  cbv beta in *. rewrite !wrap32_small by lia. lia.
Qed.

(** X19: With fewer than 2^31 wallets loaded, no backup is needed exactly when
    every opened wallet has an empty seed. *)
Theorem no_backup_needed (wallets : gmap Z LibWallet) (visited : list LibWallet) :
  visits LibWallet wallets visited ->
  Z.of_nat (size wallets) < 2 ^ 31 ->
  GetBackupsNeeded visited = 0 <->
  forall walletID w, wallets !! walletID = Some w ->
                     WalletOpened w = true -> WalletSeed w = "".
Proof.
  intros Hv Hsize. unfold GetBackupsNeeded.
  set (test := fun w => WalletOpened w && bool_decide (WalletSeed w ≠ "")).
  rewrite countWallets_passing.
  pose proof (passing_le_length test visited) as Hle.
  pose proof (visits_length _ _ Hv) as Hlen.
  rewrite wrap32_small by lia.
  assert (forall w, w ∈ visited <-> exists walletID, wallets !! walletID = Some w) as Hin.
  { intros w. unfold visits in Hv. rewrite Hv, list_elem_of_fmap. split.
    - intros ([walletID w'] & -> & Hw). exists walletID.
      apply elem_of_map_to_list in Hw. exact Hw.
    - intros (walletID & Hw). exists (walletID, w). split; [reflexivity|].
      apply elem_of_map_to_list. exact Hw. }
  split.
  - intros Hzero walletID w Hw Hopened.
    assert (filter (fun w => test w = true) visited = []) as Hnil.
    { destruct (filter _ visited); [reflexivity | simpl in Hzero; lia]. }
    destruct (decide (WalletSeed w = "")) as [|Hseed]; [assumption|].
    assert (w ∈ filter (fun w => test w = true) visited) as Hmem.
    { apply list_elem_of_filter. split; [|apply Hin; eauto].
      unfold test. rewrite Hopened, bool_decide_eq_true_2 by assumption. reflexivity. }
    rewrite Hnil in Hmem. inversion Hmem.
  - intros Hall.
    destruct (filter (fun w => test w = true) visited) as [|w rest] eqn:Hf; [reflexivity|].
    exfalso. assert (w ∈ filter (fun w => test w = true) visited) as Hmem
      by (rewrite Hf; left).
    apply list_elem_of_filter in Hmem as [Htest Hw].
    apply Hin in Hw as (walletID & Hw). unfold test in Htest.
    apply andb_true_iff in Htest as [Hopened Hseed].
    apply bool_decide_eq_true in Hseed. apply Hseed. eapply Hall; eassumption.
Qed.

(** X20: The names [createWallet] generates are reserved: [WalletNameExists]
    rejects every one of them without looking into the database, so a
    name it answers for, found or not, is never a generated name. *)
Theorem generated_names_reserved :
  (forall walletID,
     WalletNameExists (generatedWalletName Itoa walletID) = inl ErrReservedWalletName) /\
  (forall walletName exists_,
     WalletNameExists walletName = inr exists_ ->
     forall walletID, walletName <> generatedWalletName Itoa walletID).
Proof.
  assert (forall walletID,
            WalletNameExists (generatedWalletName Itoa walletID)
            = inl ErrReservedWalletName) as Hreserved.
  { intros walletID. unfold WalletNameExists, generatedWalletName. simpl.
    destruct (Itoa walletID); reflexivity. }
  split; [exact Hreserved|].
  intros walletName exists_ Hname walletID ->. rewrite Hreserved in Hname. discriminate.
Qed.

End WalletsProperties.

(** * Properties of stopping the mixer *)

Section MixerProperties.

Import Mixer.

Variable WalletRef : Type.
Context `{EqDecision WalletRef}.
Variable CancelFunc : Type.
Variable WalletWithID : Z -> option WalletRef.

Local Abbreviation StopAccountMixer := (StopAccountMixer WalletRef CancelFunc WalletWithID).
Local Abbreviation IsAccountMixerActive := (IsAccountMixerActive WalletRef CancelFunc).

(** X21: Stopping the mixer of a wallet either fails and leaves everything as
    it was (the wallet is missing, or its mixer is not running), or calls
    the cancel function of that wallet's mixer, once, and leaves the
    mixer of that wallet inactive and the others untouched; stopping again
    then fails with ErrInvalid. *)
Theorem stop_account_mixer (walletID : Z) (st : State WalletRef CancelFunc) :
  match StopAccountMixer walletID st with
  | (Some err, st') =>
      st' = st /\
      (err = ErrNotExist <-> WalletWithID walletID = None) /\
      (err = ErrInvalid <->
       exists wallet, WalletWithID walletID = Some wallet /\
                      IsAccountMixerActive st wallet = false)
  | (None, st') =>
      exists wallet cancel,
        WalletWithID walletID = Some wallet /\
        cancelAccountMixer _ _ st wallet = Some cancel /\
        cancelled _ _ st' = cancelled _ _ st ++ [cancel] /\
        IsAccountMixerActive st' wallet = false /\
        (forall other, other <> wallet ->
                       cancelAccountMixer _ _ st' other = cancelAccountMixer _ _ st other) /\
        StopAccountMixer walletID st' = (Some ErrInvalid, st')
  end.
Proof.
  unfold StopAccountMixer, IsAccountMixerActive.
  destruct (WalletWithID walletID) as [wallet|] eqn:Hw.
  - destruct (cancelAccountMixer _ _ st wallet) as [cancel|] eqn:Hc.
    + exists wallet, cancel. cbn [cancelAccountMixer cancelled].
      rewrite decide_True by reflexivity.
      split; [reflexivity|]. split; [exact Hc|]. split; [reflexivity|].
      split; [apply bool_decide_eq_false_2; intros [? [=]]|].
      split; [intros other Hother; rewrite decide_False by assumption; reflexivity|].
      reflexivity.
    + split; [reflexivity|]. split; [split; discriminate|].
      split; [|reflexivity]. intros _. exists wallet. split; [reflexivity|].
      rewrite Hc. apply bool_decide_eq_false_2. intros [? [=]].
  - split; [reflexivity|]. split; [split; reflexivity|].
    split; [discriminate | intros (? & [=] & _)].
Qed.

End MixerProperties.

(** * Properties of setting up the mixer accounts *)

Section MixerSetupProperties.

Import MixerSetup.

Variable Config : Type.
Variable ReadBoolConfigValueForKey : Config -> ConfigKey -> bool -> bool.
Variable SetInt32ConfigValueForKey : Config -> ConfigKey -> Z -> Config.
Variable SetBoolConfigValueForKey : Config -> ConfigKey -> bool -> Config.
Variable WalletError : Type.
Variable HasAccount : string -> bool.
Variable GetAccount : Z -> bool.
Variable UnlockWallet : string -> option WalletError.
Variable NextAccount : nat -> string -> WalletError + Z.

Local Abbreviation CreateMixerAccounts :=
  (CreateMixerAccounts Config ReadBoolConfigValueForKey SetInt32ConfigValueForKey
     SetBoolConfigValueForKey WalletError HasAccount UnlockWallet NextAccount).
Local Abbreviation SetAccountMixerConfig :=
  (SetAccountMixerConfig Config SetInt32ConfigValueForKey SetBoolConfigValueForKey
     WalletError GetAccount UnlockWallet).
Local Abbreviation ClearMixerConfig :=
  (ClearMixerConfig Config SetInt32ConfigValueForKey SetBoolConfigValueForKey).

(** X22: Both setup functions either leave the wallet exactly as it was or
    leave it locked, and they write to the configuration only when they
    return without error. *)
Theorem mixer_setup_locks_and_keeps_config (w : Wallet Config) :
  (forall mixedAccount unmixedAccount privPass,
     let result := CreateMixerAccounts mixedAccount unmixedAccount privPass w in
     (result.2 = w \/ locked _ result.2 = true) /\
     (is_Some result.1 -> config _ result.2 = config _ w)) /\
  (forall mixedAccount unmixedAccount privPass,
     let result := SetAccountMixerConfig mixedAccount unmixedAccount privPass w in
     (result.2 = w \/ locked _ result.2 = true) /\
     (is_Some result.1 -> config _ result.2 = config _ w)).
Proof.
  split; intros mixedAccount unmixedAccount privPass result; subst result.
  - unfold CreateMixerAccounts.
    destruct (ReadBoolConfigValueForKey _ _ _); [simpl; auto|].
    destruct (HasAccount mixedAccount || HasAccount unmixedAccount); [simpl; auto|].
    destruct (UnlockWallet privPass); [simpl; auto|].
    destruct (NextAccount 0 mixedAccount); [simpl; auto|].
    destruct (NextAccount 1 unmixedAccount); [simpl; auto|].
    simpl. split; [right; reflexivity | intros [? [=]]].
  - unfold SetAccountMixerConfig.
    destruct (bool_decide _); [simpl; auto|].
    destruct (negb (GetAccount mixedAccount)); [simpl; auto|].
    destruct (negb (GetAccount unmixedAccount)); [simpl; auto|].
    destruct (UnlockWallet privPass); [simpl; auto|].
    simpl. split; [right; reflexivity | intros [? [=]]].
Qed.

(** A store returns the boolean last written under a key. *)
Hypothesis read_after_set :
  forall c key value default,
    ReadBoolConfigValueForKey (SetBoolConfigValueForKey c key value) key default = value.

(** X23: The mixer accounts are set up at most once: after either setup
    function has returned without error, [CreateMixerAccounts] fails with
    ErrInvalid and changes nothing, whatever the wallet answers; after
    [ClearMixerConfig] it goes through again when the account names are
    free, the passphrase unlocks the wallet and both accounts are
    created. *)
Theorem mixer_setup_once (w w' : Wallet Config)
    (mixedName unmixedName privPass : string) :
  (forall mixedAccount unmixedAccount pass,
     SetAccountMixerConfig mixedAccount unmixedAccount pass w = (None, w') ->
     CreateMixerAccounts mixedName unmixedName privPass w' = (Some ErrInvalid, w')) /\
  (forall mixedAccount unmixedAccount pass,
     CreateMixerAccounts mixedAccount unmixedAccount pass w = (None, w') ->
     CreateMixerAccounts mixedName unmixedName privPass w' = (Some ErrInvalid, w')) /\
  (HasAccount mixedName = false -> HasAccount unmixedName = false ->
   UnlockWallet privPass = None ->
   forall mixedNumber unmixedNumber,
     NextAccount 0 mixedName = inr mixedNumber ->
     NextAccount 1 unmixedName = inr unmixedNumber ->
     (CreateMixerAccounts mixedName unmixedName privPass (ClearMixerConfig w)).1 = None).
Proof.
  assert (forall w0 a b,
            CreateMixerAccounts mixedName unmixedName privPass
              (LockWallet _ (setMixerConfig _ SetInt32ConfigValueForKey
                               SetBoolConfigValueForKey w0 a b))
            = (Some ErrInvalid,
               LockWallet _ (setMixerConfig _ SetInt32ConfigValueForKey
                               SetBoolConfigValueForKey w0 a b))) as Hset.
  { intros w0 a b. unfold CreateMixerAccounts. simpl.
    rewrite read_after_set. reflexivity. }
  split; [|split].
  - intros mixedAccount unmixedAccount pass. unfold SetAccountMixerConfig.
    destruct (bool_decide _); [discriminate|].
    destruct (negb (GetAccount mixedAccount)); [discriminate|].
    destruct (negb (GetAccount unmixedAccount)); [discriminate|].
    destruct (UnlockWallet pass); [discriminate|].
    intros [= <-]. unfold CreateMixerAccounts. simpl.
    rewrite read_after_set. reflexivity.
  - intros mixedAccount unmixedAccount pass. unfold CreateMixerAccounts at 1.
    destruct (ReadBoolConfigValueForKey _ _ _); [discriminate|].
    destruct (HasAccount mixedAccount || HasAccount unmixedAccount); [discriminate|].
    destruct (UnlockWallet pass); [discriminate|].
    destruct (NextAccount 0 mixedAccount); [discriminate|].
    destruct (NextAccount 1 unmixedAccount); [discriminate|].
    intros [= <-]. apply Hset.
  - intros Hmixed Hunmixed Hunlock mixedNumber unmixedNumber Hnext0 Hnext1.
    unfold CreateMixerAccounts, ClearMixerConfig. simpl.
    rewrite read_after_set, Hmixed, Hunmixed, Hunlock, Hnext0, Hnext1. reflexivity.
Qed.

End MixerSetupProperties.

(** * The properties on the reference network *)

Import Reference.

(** Two max-amount recipients after a valid payment. *)
Lemma parse_two_max_recipients_witness :
  parse [pay addrA 7; payMax addrB; pay addrC 5; payMax addrD]
  = Err MultipleMaxAmountRecipients.
Proof.
  refine (proj2 (parse_two_max_recipients MaxAmount PkScriptOf
                   [pay addrA 7] [pay addrC 5] [] (payMax addrB) (payMax addrD)
                   _ _ _) _).
  - reflexivity.
  - discriminate.
  - reflexivity.
  - vm_compute. reflexivity.
Defined.

(** C4 fails as stated: an invalid amount ahead of the two SendMax
    destinations is reported instead, and a first SendMax destination with
    an empty address lets the second one through. *)
Lemma parse_two_max_recipients_counterexample :
  parse [pay addrA 0; payMax addrB; payMax addrC] = Err InvalidAmount /\
  parse [pay addrA 0; payMax addrB; payMax addrC] <> Err MultipleMaxAmountRecipients /\
  parse [payMax ""; payMax addrB] = Ok ([], 0, addrB).
Proof.
  split; [vm_compute; reflexivity|].
  split; [vm_compute; discriminate | vm_compute; reflexivity].
Qed.

(** A zero amount after a valid payment. *)
Lemma parse_invalid_amount_witness :
  parse [pay addrA 7; pay addrB 0; payMax addrC] = Err InvalidAmount.
Proof.
  refine (proj1 (proj2 (parse_invalid_amount MaxAmount PkScriptOf
                          [pay addrA 7] [payMax addrC] (pay addrB 0) _ _)) _).
  - reflexivity.
  - left. vm_compute. discriminate.
  - vm_compute. reflexivity.
Defined.

(** C8 fails as stated: the second SendMax destination is reported before
    the zero amount behind it is looked at. *)
Lemma parse_invalid_amount_counterexample :
  parse [payMax addrA; payMax addrB; pay addrC 0] = Err MultipleMaxAmountRecipients /\
  parse [payMax addrA; payMax addrB; pay addrC 0] <> Err InvalidAmount.
Proof. split; [vm_compute; reflexivity | vm_compute; discriminate]. Qed.

(** One input of one coin, one payment of half a coin, change to the
    wallet's address: the input total and the inputs are as supplied. *)
Lemma authored_inputs_preserved_witness :
  exists tx,
    author (Some addrC) zeroTape [coin 100000000] [pay addrA 50000000] [] = Ok tx /\
    TotalInput tx = 100000000 /\
    TxIns (Tx tx) = [coin 100000000].
Proof.
  eexists. split; [vm_compute; reflexivity|].
  destruct (authored_inputs_preserved MaxAmount MaxScriptElementSize
              DefaultRelayFeePerKb RedeemP2PKHSigScriptSize PkScriptOf
              EstimateSerializeSize FeeForSerializeSize IsDustAmount
              (Some addrC) zeroTape [coin 100000000] [pay addrA 50000000] []
              _ ltac:(vm_compute; reflexivity))
    as (_ & Hexact & Hins).
  split; [|exact Hins].
  apply Hexact. vm_compute. split; discriminate.
Defined.

(** An input of 1000 atoms cannot pay 900 atoms and the fee of 2530. *)
Lemma insufficient_funds_witness :
  author (Some addrC) zeroTape [coin 1000] [pay addrA 900] []
  = Err (InsufficientFunds 2430).
Proof.
  refine (proj1 (proj1 (insufficient_funds MaxAmount MaxScriptElementSize
                          DefaultRelayFeePerKb RedeemP2PKHSigScriptSize PkScriptOf
                          EstimateSerializeSize FeeForSerializeSize IsDustAmount
                          (Some addrC) zeroTape [coin 1000] [pay addrA 900] []
                          [outTo addrA 900] 900 addrC 25 _) _)).
  - vm_compute. reflexivity.
  - vm_compute. reflexivity.
Defined.

(** A change of 470 atoms is dust: the transaction pays 7000 atoms and
    leaves 3000 to the fee. *)
Lemma dust_change_dropped_witness :
  author (Some addrC) zeroTape [coin 10000] [pay addrA 7000] []
  = Ok (authored [coin 10000] [outTo addrA 7000] 10000 217).
Proof.
  refine (proj1 (dust_change_dropped MaxAmount MaxScriptElementSize
                   DefaultRelayFeePerKb RedeemP2PKHSigScriptSize PkScriptOf
                   EstimateSerializeSize FeeForSerializeSize IsDustAmount
                   (Some addrC) zeroTape [coin 10000] [pay addrA 7000] []
                   [outTo addrA 7000] 7000 addrC 25 _ _) _).
  - vm_compute. reflexivity.
  - right. vm_compute. reflexivity.
  - vm_compute. discriminate.
Defined.

(** Payment plus change plus fee is the input: 50000000 + 49997470 + 2530. *)
Lemma conservation_witness :
  exists tx,
    author (Some addrC) zeroTape [coin 100000000] [pay addrA 50000000] [] = Ok tx /\
    sumValues (TxOuts (Tx tx))
      + FeeForSerializeSize DefaultRelayFeePerKb (EstimatedSignedSerializeSize tx)
    = TotalInput tx.
Proof.
  eexists. split; [vm_compute; reflexivity|].
  destruct (conservation MaxAmount MaxScriptElementSize
              DefaultRelayFeePerKb RedeemP2PKHSigScriptSize PkScriptOf
              EstimateSerializeSize FeeForSerializeSize IsDustAmount
              (Some addrC) zeroTape [coin 100000000] [pay addrA 50000000] []
              [outTo addrA 50000000] 50000000 addrC 25 _
              ltac:(vm_compute; reflexivity) ltac:(vm_compute; reflexivity))
    as (Hsingle & _ & _).
  apply Hsingle.
  - vm_compute. discriminate.
  - vm_compute. reflexivity.
  - discriminate.
  - vm_compute. split; discriminate.
Defined.

(** C1 fails as stated: with explicit change destinations of 5 and 7 atoms
    the outputs and the fee for the returned size stay below the input,
    and with dust change dropped the fee for the returned size (2170) is
    not the 3000 atoms left over. *)
Lemma conservation_counterexample :
  (exists tx,
     author (Some addrC) zeroTape [coin 100000000] [pay addrA 50000000]
            [pay addrC 5; pay addrD 7] = Ok tx /\
     sumValues (TxOuts (Tx tx))
       + FeeForSerializeSize DefaultRelayFeePerKb (EstimatedSignedSerializeSize tx)
     <> TotalInput tx) /\
  (exists tx,
     author (Some addrC) zeroTape [coin 10000] [pay addrA 7000] [] = Ok tx /\
     sumValues (TxOuts (Tx tx))
       + FeeForSerializeSize DefaultRelayFeePerKb (EstimatedSignedSerializeSize tx)
     <> TotalInput tx).
Proof.
  split; eexists; (split; [vm_compute; reflexivity | vm_compute; discriminate]).
Qed.

(** A max-amount recipient together with an explicit change destination. *)
Lemma conflicting_change_rejected_witness :
  author (Some addrC) zeroTape [coin 100000000] [pay addrA 7; payMax addrB] [pay addrC 5]
  = Err ConflictingChangeSpecification.
Proof.
  refine (proj2 (conflicting_change_rejected MaxAmount MaxScriptElementSize
                   DefaultRelayFeePerKb RedeemP2PKHSigScriptSize PkScriptOf
                   EstimateSerializeSize FeeForSerializeSize IsDustAmount
                   (Some addrC) zeroTape [coin 100000000]
                   [pay addrA 7; payMax addrB] [pay addrC 5] (payMax addrB)
                   _ _ _ _) _).
  - apply list_elem_of_further, list_elem_of_here.
  - reflexivity.
  - discriminate.
  - discriminate.
  - vm_compute. reflexivity.
Defined.

(** C5 fails as stated: a second SendMax destination is reported by the
    parser before the change mode is looked at, and a SendMax destination
    with an empty address is not seen as a max-amount recipient, so the
    call returns a transaction with the explicit change output. *)
Lemma conflicting_change_rejected_counterexample :
  author (Some addrC) zeroTape [coin 100000000] [payMax addrA; payMax addrB] [pay addrC 5]
    = Err MultipleMaxAmountRecipients /\
  author (Some addrC) zeroTape [coin 100000000] [payMax addrA; payMax addrB] [pay addrC 5]
    <> Err ConflictingChangeSpecification /\
  author (Some addrC) zeroTape [coin 100000000] [payMax ""] [pay addrC 5]
    = Ok (authored [coin 100000000] [outTo addrC 5] 100000000 217).
Proof.
  split; [vm_compute; reflexivity|].
  split; [vm_compute; discriminate | vm_compute; reflexivity].
Qed.

(** An explicit change destination with a 2055-byte script. *)
Lemma change_script_too_large_witness :
  author None zeroTape [coin 100000000] [pay addrA 50000000]
         [pay addrC 5; pay longAddress 7]
  = Err ScriptTooLarge.
Proof.
  refine (change_script_too_large MaxAmount MaxScriptElementSize
            DefaultRelayFeePerKb RedeemP2PKHSigScriptSize PkScriptOf
            EstimateSerializeSize FeeForSerializeSize IsDustAmount
            None zeroTape [coin 100000000] [pay addrA 50000000]
            [pay addrC 5; pay longAddress 7]
            [outTo addrA 50000000] 50000000 "" 2080
            (pay longAddress 7) (PkScript (outTo longAddress 7))
            _ _ _ _ _ _ _).
  - vm_compute. reflexivity.
  - reflexivity.
  - vm_compute. reflexivity.
  - vm_compute. reflexivity.
  - apply list_elem_of_further, list_elem_of_here.
  - vm_compute. reflexivity.
  - vm_compute. reflexivity.
Defined.

(** Explicit change of 5 and 7 atoms out of 49997220 available: both
    change outputs are made and the rest goes to the fee. *)
Lemma explicit_change_allocation_witness :
  exists tx cs,
    author None zeroTape [coin 100000000] [pay addrA 50000000]
           [pay addrC 5; pay addrD 7] = Ok tx /\
    Forall2 (changeOutputOf PkScriptOf) [pay addrC 5; pay addrD 7] cs /\
    TxOuts (Tx tx) ≡ₚ [outTo addrA 50000000] ++ cs.
Proof.
  destruct (explicit_change_allocation MaxAmount MaxScriptElementSize
              DefaultRelayFeePerKb RedeemP2PKHSigScriptSize PkScriptOf
              EstimateSerializeSize FeeForSerializeSize IsDustAmount
              None zeroTape [coin 100000000] [pay addrA 50000000]
              [pay addrC 5; pay addrD 7]
              [outTo addrA 50000000] 50000000 "" 50
              ltac:(vm_compute; reflexivity) eq_refl
              ltac:(vm_compute; reflexivity) ltac:(vm_compute; reflexivity)
              ltac:(vm_compute; discriminate))
    as [Hok _].
  destruct Hok as (tx & cs & Htx & Hcs & Hperm & _).
  - vm_compute. discriminate.
  - exists tx, cs. split; [exact Htx|]. split; [exact Hcs | exact Hperm].
Defined.

(** C7 fails as stated: eighty-two explicit change destinations of 5 atoms
    each, every one with a 25-byte script, allocate 410 atoms of a
    positive, non-dust change of 49977200 atoms, and the call fails with
    ScriptTooLarge because the script sizes are summed before the check. *)
Lemma explicit_change_allocation_counterexample :
  prepare MaxAmount PkScriptOf None [pay addrA 50000000] manyChangeDestinations
    = Ok ([outTo addrA 50000000], 50000000, "", 2050) /\
  computedChange DefaultRelayFeePerKb RedeemP2PKHSigScriptSize EstimateSerializeSize
    FeeForSerializeSize [coin 100000000] [outTo addrA 50000000] 50000000 2050
    = 49977200 /\
  IsDustAmount 49977200 2050 DefaultRelayFeePerKb = false /\
  sumAmounts manyChangeDestinations = 410 /\
  author None zeroTape [coin 100000000] [pay addrA 50000000] manyChangeDestinations
    = Err ScriptTooLarge.
Proof. repeat split; vm_compute; reflexivity. Qed.

(** With one payment and wallet change, the change output is first on the
    zero tape and second on the stay tape. *)
Lemma change_position_depends_on_tape_witness :
  exists tx1 tx2 c,
    author (Some addrC) zeroTape [coin 100000000] [pay addrA 50000000] [] = Ok tx1 /\
    author (Some addrC) (stayTape 1) [coin 100000000] [pay addrA 50000000] [] = Ok tx2 /\
    c = outTo addrC 49997470 /\
    TxOuts (Tx tx1) !! 0%nat = Some c /\
    TxOuts (Tx tx2) !! 1%nat = Some c.
Proof.
  destruct (change_position_depends_on_tape MaxAmount MaxScriptElementSize
              DefaultRelayFeePerKb RedeemP2PKHSigScriptSize PkScriptOf
              EstimateSerializeSize FeeForSerializeSize IsDustAmount
              (Some addrC) (stayTape 1) [coin 100000000] [pay addrA 50000000] []
              [outTo addrA 50000000] 50000000 addrC 25 _
              ltac:(vm_compute; reflexivity) ltac:(vm_compute; reflexivity)
              ltac:(discriminate) ltac:(vm_compute; lia))
    as (tx1 & tx2 & d & c & cs & H1 & H2 & Hd & Hc & Hfront & Hshape & Hback & _).
  change (length [outTo addrA 50000000]) with 1%nat in H2.
  exists tx1, tx2, c.
  split; [exact H1|]. split; [exact H2|].
  vm_compute in Hd. injection Hd as <-.
  vm_compute in Hc. injection Hc as <-.
  split; [vm_compute; reflexivity|]. split; [exact Hfront|].
  apply (f_equal length) in Hshape as Hlen. rewrite !length_app in Hlen.
  assert (cs = []) as ->.
  { assert (author (Some addrC) (stayTape 1) [coin 100000000] [pay addrA 50000000] []
            = Ok (authored [coin 100000000]
                    [outTo addrA 50000000; outTo addrC 49997470] 100000000 253)) as H
      by (vm_compute; reflexivity).
    unfold author in H. rewrite H in H2. injection H2 as <-.
    cbn [authored Tx TxOuts length] in Hlen.
    destruct cs; [reflexivity | simpl in Hlen; lia]. }
  rewrite Hshape. reflexivity.
Defined.

(** * Further properties on concrete data *)

(** Two payments around a max-amount recipient: two outputs, in order. *)
Lemma parse_outputs_in_order_witness :
  Forall2 (fun d out => 0 < AtomAmount d <= MaxAmount /\
                        Value out = AtomAmount d /\
                        PkScriptOf (Address d) = Some (PkScript out))
          [pay addrA 7; pay addrC 5]
          [outTo addrA 7; outTo addrC 5].
Proof.
  exact (parse_outputs_in_order MaxAmount PkScriptOf
           [pay addrA 7; payMax addrB; pay addrC 5]
           [outTo addrA 7; outTo addrC 5] 12 addrB
           ltac:(vm_compute; reflexivity)).
Defined.

Lemma parse_total_exact_witness :
  (12 : Z) = sumValues [outTo addrA 7; outTo addrC 5] /\
  Z.of_nat 2 <= 12 <= Z.of_nat 2 * MaxAmount.
Proof.
  exact (parse_total_exact MaxAmount PkScriptOf
           [pay addrA 7; payMax addrB; pay addrC 5]
           [outTo addrA 7; outTo addrC 5] 12 addrB
           ltac:(vm_compute; reflexivity)
           ltac:(vm_compute; discriminate)).
Defined.

Lemma parse_recipient_source_witness :
  exists pre d post,
    [pay addrA 7; payMax ""; payMax addrB; pay addrC 5] = pre ++ d :: post /\
    SendMax d = true /\ Address d = addrB.
Proof.
  destruct (parse_recipient_source MaxAmount PkScriptOf
              [pay addrA 7; payMax ""; payMax addrB; pay addrC 5]
              [outTo addrA 7; outTo addrC 5] 12 addrB
              ltac:(vm_compute; reflexivity))
    as [[Hempty _]|(_ & pre & d & post & Hsplit & Hmax & Haddr & _)].
  - discriminate Hempty.
  - exists pre, d, post. split; [exact Hsplit|]. split; [exact Hmax | exact Haddr].
Defined.

Lemma parse_succeeds_witness :
  exists outs total,
    parse [pay addrA 7; payMax addrB; pay addrC 5] = Ok (outs, total, addrB).
Proof.
  refine (parse_succeeds MaxAmount PkScriptOf
            [pay addrA 7; payMax addrB; pay addrC 5] _ _).
  - repeat constructor; try discriminate; vm_compute; eauto; discriminate.
  - vm_compute. lia.
Defined.

Lemma parse_undecodable_address_witness :
  parse [pay addrA 7; pay "" 5; payMax addrB] = Err MakeTxOutputError.
Proof.
  refine (proj2 (parse_undecodable_address MaxAmount PkScriptOf
                   [pay addrA 7] [payMax addrB] (pay "" 5) _ _ _) _).
  - reflexivity.
  - vm_compute. split; [reflexivity | discriminate].
  - reflexivity.
  - vm_compute. reflexivity.
Defined.


Lemma change_address_generation_failed_witness :
  author None zeroTape [coin 100000000] [pay addrA 50000000] []
  = Err ChangeAddressGenerationFailed.
Proof.
  refine (change_address_generation_failed MaxAmount MaxScriptElementSize
            DefaultRelayFeePerKb RedeemP2PKHSigScriptSize PkScriptOf
            EstimateSerializeSize FeeForSerializeSize IsDustAmount None
            zeroTape [coin 100000000] [pay addrA 50000000]
            [outTo addrA 50000000] 50000000 _ _).
  - vm_compute. reflexivity.
  - reflexivity.
Defined.

Lemma change_address_not_requested_witness :
  author None zeroTape [coin 100000000] [pay addrA 50000000] [pay addrC 5]
  = author (Some addrD) zeroTape [coin 100000000] [pay addrA 50000000] [pay addrC 5].
Proof.
  refine (change_address_not_requested MaxAmount MaxScriptElementSize
            DefaultRelayFeePerKb RedeemP2PKHSigScriptSize PkScriptOf
            EstimateSerializeSize FeeForSerializeSize IsDustAmount
            None (Some addrD) zeroTape [coin 100000000] [pay addrA 50000000]
            [pay addrC 5] _).
  left. discriminate.
Defined.

(** Two payments and wallet change on a tape whose first draw is 7: the
    change output lands at index 7 mod 3 = 1. *)
Lemma single_change_placement_witness :
  exists tx,
    author (Some addrC) (fun _ => 7) [coin 100000000]
           [pay addrA 20000000; pay addrB 30000000] [] = Ok tx /\
    TxOuts (Tx tx) = [outTo addrA 20000000; outTo addrC 49997110; outTo addrB 30000000].
Proof.
  eexists. split; [vm_compute; reflexivity|].
  destruct (single_change_placement MaxAmount MaxScriptElementSize
              DefaultRelayFeePerKb RedeemP2PKHSigScriptSize PkScriptOf
              EstimateSerializeSize FeeForSerializeSize IsDustAmount (Some addrC)
              (fun _ => 7) [coin 100000000]
              [pay addrA 20000000; pay addrB 30000000] []
              [outTo addrA 20000000; outTo addrB 30000000] 50000000 addrC 25 _
              ltac:(vm_compute; reflexivity) ltac:(vm_compute; reflexivity)
              ltac:(discriminate) ltac:(vm_compute; discriminate)
              ltac:(vm_compute; reflexivity))
    as (script & Hscript & Houts & _).
  vm_compute in Hscript. injection Hscript as <-.
  rewrite Houts. vm_compute. reflexivity.
Defined.

Lemma outputs_positive_witness :
  exists tx,
    author None zeroTape [coin 100000000] [pay addrA 50000000]
           [pay addrC 5; pay addrD 7] = Ok tx /\
    Forall (fun o => 0 < Value o) (TxOuts (Tx tx)).
Proof.
  eexists. split; [vm_compute; reflexivity|].
  refine (outputs_positive MaxAmount MaxScriptElementSize
            DefaultRelayFeePerKb RedeemP2PKHSigScriptSize PkScriptOf
            EstimateSerializeSize FeeForSerializeSize IsDustAmount None
            zeroTape [coin 100000000] [pay addrA 50000000]
            [pay addrC 5; pay addrD 7] _ _ _).
  - vm_compute. reflexivity.
  - repeat constructor.
Defined.

(** Explicit change of 49997221 atoms is one atom more than the computed
    change of 49997220: the call does not return a transaction. *)
Lemma author_succeeds_iff_witness :
  is_ok (author None zeroTape [coin 100000000] [pay addrA 50000000]
                [pay addrC 49997220; pay addrD 1]) = false.
Proof.
  destruct (author_succeeds_iff MaxAmount MaxScriptElementSize
              DefaultRelayFeePerKb RedeemP2PKHSigScriptSize PkScriptOf
              EstimateSerializeSize FeeForSerializeSize IsDustAmount None
              zeroTape [coin 100000000] [pay addrA 50000000]
              [pay addrC 49997220; pay addrD 1]
              [outTo addrA 50000000] 50000000 "" 50
              ltac:(vm_compute; reflexivity)) as [Hto _].
  destruct (is_ok _); [|reflexivity].
  destruct (Hto eq_refl) as (_ & [Hz|[Hd|[_ Hle]]]).
  - vm_compute in Hz. discriminate.
  - vm_compute in Hd. discriminate.
  - vm_compute in Hle. exfalso. apply Hle. reflexivity.
Defined.

Lemma input_order_irrelevant_witness :
  match author (Some addrC) zeroTape [coin 60000000; coin 40000000] [pay addrA 50000000] [],
        author (Some addrC) zeroTape [coin 40000000; coin 60000000] [pay addrA 50000000] []
  with
  | Ok tx, Ok tx' => TxOuts (Tx tx) = TxOuts (Tx tx') /\ TotalInput tx = TotalInput tx'
  | _, _ => False
  end.
Proof.
  pose proof (input_order_irrelevant MaxAmount MaxScriptElementSize
                DefaultRelayFeePerKb RedeemP2PKHSigScriptSize PkScriptOf
                EstimateSerializeSize FeeForSerializeSize IsDustAmount (Some addrC)
                zeroTape [coin 60000000; coin 40000000] [coin 40000000; coin 60000000]
                [pay addrA 50000000] [] (perm_swap _ _ _)) as H.
  unfold author.
  destruct (constructCustomTransaction _ _ _ _ _ _ _ _ _ _ [coin 60000000; coin 40000000] _ _)
    as [tx|e] eqn:H1;
    destruct (constructCustomTransaction _ _ _ _ _ _ _ _ _ _ [coin 40000000; coin 60000000] _ _)
    as [tx'|e'] eqn:H2.
  - destruct H as (_ & _ & Houts & Htotal & _). split; assumption.
  - exact H.
  - exact H.
  - vm_compute in H1. discriminate.
Defined.

Lemma have_address_is_valid_witness :
  AddressBook.IsAddressValid string unit Samples.sampleDecode "DsAlice" = true.
Proof.
  refine (proj1 (have_address_is_valid string unit Samples.sampleDecode unit
                   Samples.sampleHave "DsAlice" _)).
  vm_compute. reflexivity.
Defined.

(** Three wallets, two opened, one of them with its seed still stored and
    synced. *)
Lemma wallet_counts_ordered_witness :
  0 <= Wallets.GetBackupsNeeded _ Samples.sampleOpened Samples.sampleSeed
         Samples.sampleVisit
    <= Wallets.OpenedWalletsCount _ Samples.sampleOpened Samples.sampleID
         Samples.sampleVisit /\
  0 <= Wallets.SyncedWalletCount _ Samples.sampleOpened Samples.sampleSynced
         Samples.sampleVisit
    <= Wallets.OpenedWalletsCount _ Samples.sampleOpened Samples.sampleID
         Samples.sampleVisit /\
  Wallets.OpenedWalletsCount _ Samples.sampleOpened Samples.sampleID Samples.sampleVisit
    <= Wallets.LoadedWalletsCount _ Samples.sampleWallets.
Proof.
  refine (wallet_counts_ordered Samples.SampleWallet Samples.sampleOpened
            Samples.sampleSeed Samples.sampleSynced Samples.sampleID
            Samples.sampleWallets Samples.sampleVisit Samples.sampleVisit
            Samples.sampleVisit _ _ _ _).
  - unfold Wallets.visits. reflexivity.
  - unfold Wallets.visits. reflexivity.
  - unfold Wallets.visits. reflexivity.
  - vm_compute. reflexivity.
Defined.

Lemma no_backup_needed_witness :
  Wallets.GetBackupsNeeded _ Samples.sampleOpened Samples.sampleSeed
    (map_to_list Samples.backedUpWallets).*2 = 0.
Proof.
  refine (proj2 (no_backup_needed Samples.SampleWallet Samples.sampleOpened
                   Samples.sampleSeed Samples.backedUpWallets
                   (map_to_list Samples.backedUpWallets).*2 _ _) _).
  - unfold Wallets.visits. reflexivity.
  - vm_compute. reflexivity.
  - intros walletID w Hw Hopened. unfold Samples.backedUpWallets in Hw.
    apply lookup_insert_Some in Hw as [[_ <-]|[_ Hw]]; [reflexivity|].
    apply lookup_insert_Some in Hw as [[_ <-]|[_ Hw]]; [reflexivity|].
    rewrite lookup_empty in Hw. discriminate.
Defined.

(** Setting the mixer configuration for accounts 1 and 2, then asking for
    new mixer accounts. *)
Lemma mixer_setup_once_witness :
  MixerSetup.CreateMixerAccounts _ Samples.sampleReadBool Samples.sampleSetInt32
    Samples.sampleSetBool unit (fun _ => false) (fun _ => None) (fun _ _ => inr 3)
    "mixed" "unmixed" "pass" Samples.configuredWallet
  = (Some MixerSetup.ErrInvalid, Samples.configuredWallet).
Proof.
  refine (proj1 (mixer_setup_once Samples.SampleConfig Samples.sampleReadBool
                   Samples.sampleSetInt32 Samples.sampleSetBool unit
                   (fun _ => false) (fun _ => true) (fun _ => None) (fun _ _ => inr 3)
                   _ Samples.freshWallet Samples.configuredWallet
                   "mixed" "unmixed" "pass") 1 2 "pass" _).
  - intros c key value default. unfold Samples.sampleReadBool, Samples.sampleSetBool.
    simpl. rewrite decide_True by reflexivity. reflexivity.
  - reflexivity.
Defined.

(** Dust change dropped: 3000 atoms are left where 2530 are required. *)
Lemma fee_never_below_required_witness :
  exists tx,
    author (Some addrC) zeroTape [coin 10000] [pay addrA 7000] [] = Ok tx /\
    2530 <= TotalInput tx - sumValues (TxOuts (Tx tx)).
Proof.
  eexists. split; [vm_compute; reflexivity|].
  refine (fee_never_below_required MaxAmount MaxScriptElementSize
            DefaultRelayFeePerKb RedeemP2PKHSigScriptSize PkScriptOf
            EstimateSerializeSize FeeForSerializeSize IsDustAmount (Some addrC)
            zeroTape [coin 10000] [pay addrA 7000] []
            [outTo addrA 7000] 7000 addrC 25 _ _ _ _ _ _).
  - vm_compute. reflexivity.
  - vm_compute. reflexivity.
  - vm_compute. split; discriminate.
  - vm_compute. split; discriminate.
  - vm_compute. split; discriminate.
Defined.
